(** * Composite index application: the weighted aggregation engine

    A shallow embedding of [src/app.py] ([StreamlitApp.process_data],
    [PlotManager.generate_plot]) and [src/db.py] ([DatabaseBigQuery]),
    and the properties of the composite series it computes.

    - pandas data frames live in a store ([heap]) and are handled through
      references: the program updates columns in place and hands the same
      objects to the plotting code;
    - calls can raise: every operation runs in a state-and-exception
      monad [M];
    - the warehouse is a pair of tables and an oracle telling which
      connection attempts succeed; every query that is run is logged;
    - Python floats are kept abstract: an [Arith] structure gives the
      operations the program uses ([+], [*], [/], the literals [0] and
      [100]).  Results that need algebraic laws say so through
      [ExactArith]: they are about exact arithmetic.  The examples run
      on the rationals [Qc]; [Binary64] instantiates the operations with
      those of binary64, to show what rounding does to such results.

    The file has three parts: the program, the vocabulary in which its
    properties are stated together with a worked scenario, and the
    properties themselves. *)

From Stdlib Require Import ZArith QArith Qcanon.
From Stdlib Require Floats.PrimFloat.
From stdpp Require Import base tactics option list sorting strings.

Local Open Scope Z_scope.

(** ** Timestamps

    [observation_date] after [pd.to_datetime]: a calendar date.  The order
    is the chronological one, lexicographic on year, month, day. *)

Record Timestamp := mkTimestamp { year : Z; month : Z; day : Z }.

#[global] Instance Timestamp_eq_dec : EqDecision Timestamp.
Proof. solve_decision. Defined.

Definition ts_compare (a b : Timestamp) : comparison :=
  match year a ?= year b with
  | Eq => match month a ?= month b with
          | Eq => day a ?= day b
          | c => c
          end
  | c => c
  end.

(** [a <= b] on timestamps. *)
Definition ts_leb (a b : Timestamp) : bool :=
  match ts_compare a b with Gt => false | _ => true end.

Definition ts_le (a b : Timestamp) : Prop := ts_leb a b = true.
Definition ts_lt (a b : Timestamp) : Prop := ts_compare a b = Lt.

#[global] Instance ts_le_dec : RelDecision ts_le.
Proof. intros a b. unfold ts_le. apply _. Defined.

Definition is_leap_year (y : Z) : bool :=
  (y mod 4 =? 0) && (negb (y mod 100 =? 0) || (y mod 400 =? 0)).

Definition days_in_month (y m : Z) : Z :=
  if m =? 2 then (if is_leap_year y then 29 else 28)
  else if (m =? 4) || (m =? 6) || (m =? 9) || (m =? 11) then 30
  else 31.

(** The years of Python's dates: [datetime.MINYEAR] and
    [datetime.MAXYEAR]. *)
Definition MINYEAR : Z := 1.
Definition MAXYEAR : Z := 9999.

(** [t - pd.DateOffset(years=n)]: the year goes back by [n], the month is
    kept, and the day is clipped to the length of the target month
    (29 February lands on 28 February of a common year).  The date is
    rebuilt with [datetime.replace], which raises [ValueError] for a year
    outside [MINYEAR..MAXYEAR]: that is [None] here.  (pandas can refuse
    more: in nanosecond resolution its dates start in 1677.) *)
Definition sub_years (n : Z) (t : Timestamp) : option Timestamp :=
  if decide (MINYEAR ≤ year t - n ≤ MAXYEAR)
  then Some {| year := year t - n;
               month := month t;
               day := Z.min (day t) (days_in_month (year t - n) (month t)) |}
  else None.

(** ** Numbers *)

(** The arithmetic of the values: what the program does with Python
    floats. *)
Class Arith (V : Type) := {
  vzero : V;
  v100 : V;
  vadd : V → V → V;
  vmul : V → V → V;
  vdiv : V → V → V
}.

(** Exact arithmetic: the laws of addition that sums in any order rely
    on, and a weight of 0 % cancelling every value. *)
Class ExactArith (V : Type) `{Arith V} : Prop := {
  vadd_comm : ∀ x y : V, vadd x y = vadd y x;
  vadd_assoc : ∀ x y z : V, vadd x (vadd y z) = vadd (vadd x y) z;
  vadd_zero_l : ∀ x : V, vadd vzero x = x;
  vmul_zero_weight : ∀ x : V, vmul x (vdiv vzero v100) = vzero
}.

(** [sum()] of a column: the values are added up in row order. *)
Definition vsum `{Arith V} (l : list V) : V := foldl vadd vzero l.

(** The rationals, for the examples. *)
#[global] Instance Qc_Arith : Arith Qc := {|
  vzero := 0%Qc;
  v100 := Q2Qc 100;
  vadd := Qcplus;
  vmul := Qcmult;
  vdiv := Qcdiv
|}.

(** Binary64, the floats of Python, for the examples where rounding
    matters. *)
Module Binary64.
Import PrimFloat.

#[global] Instance float_Arith : Arith float := {|
  vzero := 0%float;
  v100 := 100%float;
  vadd := add;
  vmul := mul;
  vdiv := div
|}.

Definition big : float := 1e16%float.
Definition minus_big : float := (-1e16)%float.
Definition unit : float := 1%float.
Definition nothing : float := 0%float.

End Binary64.

(** ** Data frames *)

Section frames.
Context {V : Type} `{Arith V}.

Record Row := mkRow {
  observation_date : Timestamp;
  adjusted_index_value : V
}.

(** The frames of this program are either [pd.DataFrame()], which has no
    column at all, or tables with the two columns [observation_date] and
    [adjusted_index_value]. *)
Inductive DataFrame :=
  | NoColumns
  | Frame (rows : list Row).

Definition frame_rows (df : DataFrame) : list Row :=
  match df with NoColumns => [] | Frame rows => rows end.

(** [Series.max()] of a date column; [None] is [NaT], the maximum of an
    empty column. *)
Definition ts_max (a b : Timestamp) : Timestamp := if ts_leb a b then b else a.

Definition series_max (dates : list Timestamp) : option Timestamp :=
  match dates with
  | [] => None
  | d :: rest => Some (foldl ts_max d rest)
  end.

(** [dates >= start]: every comparison with [NaT] is [False]. *)
Definition series_ge (dates : list Timestamp) (start : option Timestamp) : list bool :=
  (λ d, match start with Some s => ts_leb s d | None => false end) <$> dates.

(** [series * scalar]. *)
Definition series_mul (values : list V) (k : V) : list V :=
  (λ v, vmul v k) <$> values.

(** Boolean indexing [rows[mask]]. *)
Fixpoint select_mask (rows : list Row) (mask : list bool) : list Row :=
  match rows, mask with
  | r :: rows', b :: mask' =>
      if b then r :: select_mask rows' mask' else select_mask rows' mask'
  | _, _ => []
  end.

(** Writing a whole column back, row by row. *)
Definition set_dates (rows : list Row) (dates : list Timestamp) : list Row :=
  zip_with (λ r d, mkRow d (adjusted_index_value r)) rows dates.

Definition set_values (rows : list Row) (values : list V) : list Row :=
  zip_with (λ r v, mkRow (observation_date r) v) rows values.

(** [sort_values(by='observation_date')]: ascending.  Rows with the same
    date keep their relative order here; pandas leaves their order to
    the sorting algorithm. *)
Fixpoint insert_row (r : Row) (sorted : list Row) : list Row :=
  match sorted with
  | [] => [r]
  | r' :: rest =>
      if ts_leb (observation_date r) (observation_date r')
      then r :: sorted
      else r' :: insert_row r rest
  end.

Definition sort_rows (rows : list Row) : list Row := foldr insert_row [] rows.

(** The keys of [groupby('observation_date')]: the distinct dates,
    ascending ([sort=True] is the default). *)
Fixpoint insert_key (d : Timestamp) (keys : list Timestamp) : list Timestamp :=
  match keys with
  | [] => [d]
  | k :: rest =>
      match ts_compare d k with
      | Lt => d :: keys
      | Eq => keys
      | Gt => k :: insert_key d rest
      end
  end.

Definition group_keys (dates : list Timestamp) : list Timestamp :=
  foldr insert_key [] dates.

(** The values of the rows of one group, in row order. *)
Definition group_values (d : Timestamp) (rows : list Row) : list V :=
  adjusted_index_value <$> filter (λ r, observation_date r = d) rows.

(** [groupby('observation_date').sum().reset_index()]. *)
Definition groupby_sum (rows : list Row) : list Row :=
  (λ d, mkRow d (vsum (group_values d rows))) <$> group_keys (observation_date <$> rows).

End frames.

Arguments Row V : clear implicits.
Arguments DataFrame V : clear implicits.

(** ** The warehouse and the store *)

(** One row of [marts.ppi_series_details]. *)
Record SeriesDetail := mkSeriesDetail {
  sd_category_2 : string;
  sd_category_3 : string;
  sd_series_id : string
}.

(** One row of [marts.ppi_adjusted_2020]. *)
Record AdjustedObservation (V : Type) := mkAdjustedObservation {
  ao_series_id : string;
  ao_observation_date : Timestamp;
  ao_adjusted_index_value : V
}.
Arguments mkAdjustedObservation {V}.
Arguments ao_series_id {V}.
Arguments ao_observation_date {V}.
Arguments ao_adjusted_index_value {V}.

(** The queries [pd.read_sql] runs, with their parameters. *)
Inductive Query :=
  | SeriesDetailsQuery (category_2 : string) (category_3 : option string)
  | AdjustedQuery (series_id : string).

(** [online n] tells whether the connection attempt number [n] (counted
    from 0 over the life of the process) reaches the warehouse. *)
Record Database (V : Type) := mkDatabase {
  ppi_series_details : list SeriesDetail;
  ppi_adjusted_2020 : list (AdjustedObservation V);
  online : nat → bool
}.
Arguments mkDatabase {V}.
Arguments ppi_series_details {V}.
Arguments ppi_adjusted_2020 {V}.
Arguments online {V}.

(** A reference to a data frame object. *)
Definition ref := nat.

(** The state a run works on: the warehouse, the store of frames, the
    number of connection attempts made so far and the queries run so
    far. *)
Record World (V : Type) := mkWorld {
  database : Database V;
  heap : list (DataFrame V);
  connects : nat;
  queries : list Query
}.
Arguments mkWorld {V}.
Arguments database {V}.
Arguments heap {V}.
Arguments connects {V}.
Arguments queries {V}.

(** The exceptions that can come up.  [Stuck] is not a Python exception:
    it marks uses of the store or of pandas that the model does not
    cover (a reference to no object, a column written to
    [pd.DataFrame()]). *)
Inductive Exn :=
  | KeyError (key : string)
  | IndexError
  | ValueError
  | OperationalError
  | Stuck.

(** A call returns a value or raises. *)
Inductive Outcome (A : Type) :=
  | Ok (a : A)
  | Raise (e : Exn).
Arguments Ok {A}.
Arguments Raise {A}.

(** Computations: they read and change the world, and what they did
    before raising stays done. *)
Definition M (V A : Type) : Type := World V → Outcome A * World V.

#[global] Instance M_ret {V} : MRet (M V) := λ A a w, (Ok a, w).

#[global] Instance M_bind {V} : MBind (M V) := λ A B f m w,
  match m w with
  | (Ok a, w') => f a w'
  | (Raise e, w') => (Raise e, w')
  end.

Definition raise {V A} (e : Exn) : M V A := λ w, (Raise e, w).

Section store.
Context {V : Type}.

(** The store: objects are never freed, a reference is the position of
    its object. *)
Definition set_heap (h : list (DataFrame V)) (w : World V) : World V :=
  mkWorld (database w) h (connects w) (queries w).

(** A new object gets the next free reference. *)
Definition alloc (df : DataFrame V) : M V ref :=
  λ w, (Ok (length (heap w)), set_heap (heap w ++ [df]) w).

Definition read (r : ref) : M V (DataFrame V) :=
  λ w, match heap w !! r with
       | Some df => (Ok df, w)
       | None => (Raise Stuck, w)
       end.

Definition write (r : ref) (df : DataFrame V) : M V () :=
  λ w, if decide (r < length (heap w))%nat
       then (Ok (), set_heap (<[r := df]> (heap w)) w)
       else (Raise Stuck, w).

Fixpoint read_all (rs : list ref) : M V (list (DataFrame V)) :=
  match rs with
  | [] => mret []
  | r :: rs' => df ← read r; dfs ← read_all rs'; mret (df :: dfs)
  end.

(** *** pandas *)

(** [pd.DataFrame()] *)
Definition pd_DataFrame : M V ref := alloc NoColumns.

(** [df['observation_date']] *)
Definition df_getitem_dates (r : ref) : M V (list Timestamp) :=
  df ← read r;
  match df with
  | NoColumns => raise (KeyError "observation_date")
  | Frame rows => mret (observation_date <$> rows)
  end.

(** [df['adjusted_index_value']] *)
Definition df_getitem_values (r : ref) : M V (list V) :=
  df ← read r;
  match df with
  | NoColumns => raise (KeyError "adjusted_index_value")
  | Frame rows => mret (adjusted_index_value <$> rows)
  end.

(** [df['observation_date'] = dates], in place. *)
Definition df_setitem_dates (r : ref) (dates : list Timestamp) : M V () :=
  df ← read r;
  match df with
  | NoColumns => raise Stuck
  | Frame rows =>
      if decide (length dates = length rows)
      then write r (Frame (set_dates rows dates))
      else raise ValueError
  end.

(** [df['adjusted_index_value'] = values], in place. *)
Definition df_setitem_values (r : ref) (values : list V) : M V () :=
  df ← read r;
  match df with
  | NoColumns => raise Stuck
  | Frame rows =>
      if decide (length values = length rows)
      then write r (Frame (set_values rows values))
      else raise ValueError
  end.

(** [df[mask]]: a new frame with the rows where the mask holds. *)
Definition df_getitem_mask (r : ref) (mask : list bool) : M V ref :=
  df ← read r;
  if decide (length mask = length (frame_rows df))
  then alloc (match df with
              | NoColumns => NoColumns
              | Frame rows => Frame (select_mask rows mask)
              end)
  else raise ValueError.

(** [df.sort_values(by='observation_date')]: a new frame. *)
Definition df_sort_values (r : ref) : M V ref :=
  df ← read r;
  match df with
  | NoColumns => raise (KeyError "observation_date")
  | Frame rows => alloc (Frame (sort_rows rows))
  end.

(** [df.copy()] *)
Definition df_copy (r : ref) : M V ref :=
  df ← read r; alloc df.

(** [pd.concat(frames)]: the rows of all the frames, one after the other;
    frames without columns bring nothing. *)
Definition concat_frames (dfs : list (DataFrame V)) : DataFrame V :=
  if forallb (λ df, match df with NoColumns => true | Frame _ => false end) dfs
  then NoColumns
  else Frame (mjoin (frame_rows <$> dfs)).

Definition pd_concat (rs : list ref) : M V ref :=
  match rs with
  | [] => raise ValueError
  | _ => dfs ← read_all rs; alloc (concat_frames dfs)
  end.

End store.

Section pandas_sum.
Context {V : Type} `{Arith V}.

(** [df.groupby('observation_date').sum().reset_index()] *)
Definition df_groupby_sum (r : ref) : M V ref :=
  df ← read r;
  match df with
  | NoColumns => raise (KeyError "observation_date")
  | Frame rows => alloc (Frame (groupby_sum rows))
  end.

End pandas_sum.

(** ** [db.py]: [DatabaseBigQuery] *)

Section db.
Context {V : Type}.

(** One more connection attempt. *)
Definition bump_connects (w : World V) : World V :=
  mkWorld (database w) (heap w) (S (connects w)) (queries w).

(** One more query run. *)
Definition log_query (q : Query) (w : World V) : World V :=
  mkWorld (database w) (heap w) (connects w) (queries w ++ [q]).

(** [connect_to_database]: [engine.connect()] raises when the warehouse
    cannot be reached.  This is the one failure of the warehouse that the
    model has, under one name: a query that fails after the connection
    is up, and the class the driver really raises, are outside it. *)
Definition connect_to_database : M V () :=
  λ w, if online (database w) (connects w)
       then (Ok (), bump_connects w)
       else (Raise OperationalError, bump_connects w).

(** The [WHERE] clause of the query on [marts.ppi_series_details]:
    [category_2 = %s], and [AND category_3 = %s] when one is given. *)
Definition details_where (category_2 : string) (category_3 : option string)
    (d : SeriesDetail) : Prop :=
  sd_category_2 d = category_2 ∧
  match category_3 with
  | Some c3 => sd_category_3 d = c3
  | None => True
  end.

#[global] Instance details_where_dec c2 c3 d : Decision (details_where c2 c3 d).
Proof. unfold details_where. destruct c3; apply _. Defined.

(** [pd.read_sql(query, conn, params)] on [marts.ppi_series_details].
    The query has no [ORDER BY]: the rows come here in the order of the
    table, which stands for whatever order the warehouse answers in. *)
Definition read_sql_series_details (category_2 : string) (category_3 : option string)
    : M V (list SeriesDetail) :=
  λ w, (Ok (filter (details_where category_2 category_3)
                   (ppi_series_details (database w))),
        log_query (SeriesDetailsQuery category_2 category_3) w).

(** [SELECT observation_date, adjusted_index_value ... WHERE series_id =
    %(series_id)s]. *)
Definition adjusted_rows (series_id : string) (table : list (AdjustedObservation V))
    : list (Row V) :=
  (λ o, mkRow (ao_observation_date o) (ao_adjusted_index_value o))
    <$> filter (λ o, ao_series_id o = series_id) table.

(** [pd.read_sql(query, conn, params)] on [marts.ppi_adjusted_2020]: the
    result is a new frame. *)
Definition read_sql_adjusted (series_id : string) : M V ref :=
  λ w, alloc (Frame (adjusted_rows series_id (ppi_adjusted_2020 (database w))))
             (log_query (AdjustedQuery series_id) w).

(** Truth value of a Python string: the empty string is false. *)
Definition str_truthy (s : string) : bool :=
  match s with EmptyString => false | String _ _ => true end.

(** [fetch_series_data(category_2, category_3)] *)
Definition fetch_series_data (category_2 category_3 : string) : M V (list string) :=
  connect_to_database;;
  df ← read_sql_series_details category_2
         (if str_truthy category_3 then Some category_3 else None);
  mret (sd_series_id <$> df).

(** [fetch_timeseries_data(series_id)]: [series_id] is the whole list of
    identifiers, the query takes [series_id[0]]. *)
Definition fetch_timeseries_data (series_id : list string) : M V ref :=
  connect_to_database;;
  match series_id with
  | [] => raise IndexError
  | first :: _ => read_sql_adjusted first
  end.

End db.

(** One row of [marts.ppi_all_commodities], with the two columns the
    application reads. *)
Record Commodity := mkCommodity {
  cm_category_2 : string;
  cm_category_3 : string
}.

#[global] Instance Commodity_eq_dec : EqDecision Commodity.
Proof. solve_decision. Defined.

(** [ORDER BY category_2, category_3] *)
Definition commodity_le (a b : Commodity) : Prop :=
  (cm_category_2 a ≤ cm_category_2 b)%string ∧
  (cm_category_2 a = cm_category_2 b → (cm_category_3 a ≤ cm_category_3 b)%string).

#[global] Instance commodity_le_dec : RelDecision commodity_le.
Proof. intros a b. unfold commodity_le. apply _. Defined.

(** [fetch_all_categories()].  The table is not one of the two series
    tables of [Database]: it is handed over as an argument. *)
Definition fetch_all_categories {V} (ppi_all_commodities : list Commodity)
    : M V (list Commodity) :=
  connect_to_database;;
  mret (merge_sort commodity_le ppi_all_commodities).

(** ** [app.py] *)

(** A selection: the tuple [(category_2, category_3, weight)] that
    [gather_user_inputs] builds. *)
Record Selection (V : Type) := mkSelection {
  category_2 : string;
  category_3 : string;
  weight_percent : V
}.
Arguments mkSelection {V}.
Arguments category_2 {V}.
Arguments category_3 {V}.
Arguments weight_percent {V}.

(** What [process_data] returns: [aggregated_index], [individual_indexes],
    [index_categories], [index_ids]. *)
Record Processed := mkProcessed {
  aggregated_index : ref;
  individual_indexes : list ref;
  index_categories : list string;
  index_ids : list string
}.

(** The four lists the loop of [process_data] appends to. *)
Record Collected := mkCollected {
  c_individual_indexes : list ref;
  c_index_categories : list string;
  c_index_ids : list string;
  c_weighted_dataframes : list ref
}.

(** [pd.to_datetime] of a column that already holds dates. *)
Definition pd_to_datetime (dates : list Timestamp) : list Timestamp := dates.

Section process_data.
Context {V : Type} `{Arith V}.

(** The [for] loop of [process_data], lines 105 to 121.  [if series_id:]
    holds for a list that is not empty, [first] is [series_id[0]]. *)
Fixpoint process_selections (selections : list (Selection V)) (acc : Collected)
    : M V Collected :=
  match selections with
  | [] => mret acc
  | selection :: rest =>
      series_id ← fetch_series_data (category_2 selection) (category_3 selection);
      match series_id with
      | [] => process_selections rest acc
      | first :: _ =>
          timeseries_data ← fetch_timeseries_data series_id;
          dates ← df_getitem_dates timeseries_data;
          df_setitem_dates timeseries_data (pd_to_datetime dates);;
          sorted ← df_sort_values timeseries_data;
          individual ← df_copy sorted;
          values ← df_getitem_values timeseries_data;
          df_setitem_values timeseries_data
            (series_mul values (vdiv (weight_percent selection) v100));;
          process_selections rest
            (mkCollected (c_individual_indexes acc ++ [individual])
                         (c_index_categories acc ++ [category_3 selection])
                         (c_index_ids acc ++ [first])
                         (c_weighted_dataframes acc ++ [timeseries_data]))
      end
  end.

(** Lines 124 to 128: the aggregation of the weighted frames. *)
Definition aggregate (weighted_dataframes : list ref) : M V ref :=
  match weighted_dataframes with
  | [] => pd_DataFrame
  | _ =>
      all ← pd_concat weighted_dataframes;
      summed ← df_groupby_sum all;
      df_sort_values summed
  end.

(** [process_data(selections)] *)
Definition process_data (selections : list (Selection V)) : M V Processed :=
  acc ← process_selections selections (mkCollected [] [] [] []);
  aggregated ← aggregate (c_weighted_dataframes acc);
  mret (mkProcessed aggregated (c_individual_indexes acc)
                    (c_index_categories acc) (c_index_ids acc)).

End process_data.

(** *** [PlotManager] *)

Record Line := mkLine { color : string; width : Z }.

Record Scatter (V : Type) := mkScatter {
  x : list Timestamp;
  y : list V;
  mode : string;
  name : string;
  line : Line
}.
Arguments mkScatter {V}.
Arguments x {V}.
Arguments y {V}.
Arguments mode {V}.
Arguments name {V}.
Arguments line {V}.

Record Figure (V : Type) := mkFigure {
  data : list (Scatter V);
  title : option string
}.
Arguments mkFigure {V}.
Arguments data {V}.
Arguments title {V}.

Section generate_plot.
Context {V : Type}.

Definition add_trace (fig : Figure V) (trace : Scatter V) : Figure V :=
  mkFigure (data fig ++ [trace]) (title fig).

Definition update_layout (fig : Figure V) (t : string) : Figure V :=
  mkFigure (data fig) (Some t).

(** The loop over [zip(individual_indexes, index_categories)]. *)
Fixpoint plot_individual (pairs : list (ref * string)) (start_date : option Timestamp)
    (fig : Figure V) : M V (Figure V) :=
  match pairs with
  | [] => mret fig
  | (idx_data, label) :: rest =>
      dates ← df_getitem_dates idx_data;
      idx_data ← df_getitem_mask idx_data (series_ge dates start_date);
      xs ← df_getitem_dates idx_data;
      ys ← df_getitem_values idx_data;
      plot_individual rest start_date
        (add_trace fig (mkScatter xs ys "lines" label (mkLine "#71869d" 1)))
  end.

(** [last_date - pd.DateOffset(years=n)]: [NaT] stays [NaT]; a date
    whose year would leave the range of Python's dates raises
    [ValueError]. *)
Definition sub_date_offset (n : Z) (last_date : option Timestamp)
    : M V (option Timestamp) :=
  match last_date with
  | None => mret None
  | Some last =>
      match sub_years n last with
      | Some start_date => mret (Some start_date)
      | None => raise ValueError
      end
  end.

(** [generate_plot(aggregated_index, individual_indexes, index_categories)] *)
Definition generate_plot (aggregated_index : ref) (individual_indexes : list ref)
    (index_categories : list string) : M V (Figure V) :=
  dates ← df_getitem_dates aggregated_index;
  let last_date := series_max dates in
  start_date ← sub_date_offset 5 last_date;
  dates ← df_getitem_dates aggregated_index;
  filtered_data ← df_getitem_mask aggregated_index (series_ge dates start_date);
  let fig := mkFigure [] None in
  xs ← df_getitem_dates filtered_data;
  ys ← df_getitem_values filtered_data;
  let fig := add_trace fig
               (mkScatter xs ys "lines" "Composite Index" (mkLine "#093D44" 5)) in
  fig ← plot_individual (zip individual_indexes index_categories) start_date fig;
  mret (update_layout fig "Composite Index and Individual Indices - Last 5 Years").

End generate_plot.

(** *** [StreamlitApp.__init__] and [gather_user_inputs] *)

(** The object [self]: its only attribute is the catalog. *)
Record StreamlitApp := mkStreamlitApp {
  df_categories : list Commodity
}.

(** [__init__]: the catalog is fetched once ([st.set_page_config] only
    concerns the layout). *)
Definition StreamlitApp_init {V} (ppi_all_commodities : list Commodity)
    : M V StreamlitApp :=
  df ← fetch_all_categories ppi_all_commodities;
  mret (mkStreamlitApp df).

(** A tuple [(category_2, category_3, weight)] as the widgets give it:
    a selectbox without options returns [None]. *)
Definition Entry (V : Type) : Type := (option string * option string * V)%type.

(** [st.session_state]: [None] when it has no key ['selections'] yet. *)
Record SessionState (V : Type) := mkSessionState {
  ss_selections : option (list (Entry V))
}.
Arguments mkSessionState {V}.
Arguments ss_selections {V}.

(** What the user has set in the page when the script runs: the slider,
    and for row [i] the position chosen in each selectbox and the number
    typed in; [None] where the user has not touched the widget. *)
Record Widgets (V : Type) := mkWidgets {
  w_slider : option nat;
  w_category_2 : nat → option nat;
  w_category_3 : nat → option nat;
  w_weight : nat → option V
}.
Arguments mkWidgets {V}.
Arguments w_slider {V}.
Arguments w_category_2 {V}.
Arguments w_category_3 {V}.
Arguments w_weight {V}.

(** What can go wrong while the page is built: a Python exception, or
    Streamlit refusing the arguments of a widget. *)
Inductive UiExn :=
  | PythonError (e : Exn)
  | StreamlitAPIException.

Inductive Script (A : Type) :=
  | Returns (a : A)
  | Raises (e : UiExn).
Arguments Returns {A}.
Arguments Raises {A}.

#[global] Instance Script_ret : MRet Script := λ A a, Returns a.

#[global] Instance Script_bind : MBind Script := λ A B f m,
  match m with
  | Returns a => f a
  | Raises e => Raises e
  end.

(** [<] on the values, for the bounds of the weight. *)
Class Compare (V : Type) := { vltb : V → V → bool }.

(** What the bounds [0.0] and [100.0] need: neither [0.0 < 0.0] nor
    [100.0 < 0.0]. *)
Class CompareLaws (V : Type) `{Arith V} `{Compare V} : Prop := {
  zero_not_below_zero : vltb vzero vzero = false;
  hundred_not_below_zero : vltb v100 vzero = false
}.

#[global] Instance Qc_Compare : Compare Qc := {|
  vltb := λ a b, match (a ?= b)%Qc with Lt => true | _ => false end
|}.

(** [st.slider(min_value, max_value, value)]: the value set by the user,
    which lies in the range, or the initial [value]. *)
Definition st_slider (min_value max_value value : nat) (set : option nat) : nat :=
  match set with
  | Some n => if decide (min_value ≤ n ≤ max_value)%nat then n else value
  | None => value
  end.

(** [st.selectbox(options, index)]: the option chosen by the user, or
    the one at [index]; [None] when there is no option.  Streamlit
    refuses an [index] beyond the options. *)
Definition st_selectbox (options : list string) (index : nat) (chosen : option nat)
    : Script (option string) :=
  match options with
  | [] => Returns None
  | _ =>
      match options !! index with
      | None => Raises StreamlitAPIException
      | Some preselected =>
          Returns (Some (default preselected (chosen ≫= (options !!.))))
      end
  end.

(** [min_value <= v <= max_value], as Streamlit tests it: neither
    [v < min_value] nor [max_value < v]. *)
Definition within `{Compare V} (min_value max_value v : V) : bool :=
  negb (vltb v min_value) && negb (vltb max_value v).

(** [st.number_input(min_value, max_value, value)]: the number typed in,
    which lies within the bounds, or the initial [value].  Streamlit
    refuses an initial [value] outside the bounds. *)
Definition st_number_input `{Compare V} (min_value max_value value : V)
    (typed : option V) : Script V :=
  if within min_value max_value value
  then Returns (match typed with
                | Some v => if within min_value max_value v then v else value
                | None => value
                end)
  else Raises StreamlitAPIException.

(** [Series.unique().tolist()]: the distinct values, in the order in
    which they first appear. *)
Fixpoint unique (l : list string) : list string :=
  match l with
  | [] => []
  | x :: l' => x :: filter (λ y, y ≠ x) (unique l')
  end.

(** [options.index(x)]: the position of the first [x]. *)
Fixpoint list_index (x : string) (options : list string) : Script nat :=
  match options with
  | [] => Raises (PythonError ValueError)
  | y :: options' =>
      if decide (x = y) then Returns 0%nat
      else j ← list_index x options'; Returns (S j)
  end.

(** [options.index(x) if x in options else 0], for [x] a string or
    [None]. *)
Definition preselected_index (x : option string) (options : list string) : Script nat :=
  match x with
  | Some c => if decide (c ∈ options) then list_index c options else Returns 0%nat
  | None => Returns 0%nat
  end.

(** [selections[i]] *)
Definition list_getitem {A} (l : list A) (i : nat) : Script A :=
  match l !! i with
  | Some a => Returns a
  | None => Raises (PythonError IndexError)
  end.

Section gather_user_inputs.
Context {V : Type} `{Arith V} `{Compare V}.

(** [(None, None, 0.0)] *)
Definition blank_entry : Entry V := (None, None, vzero).

(** [while len(selections) < num_categories: selections.append(...)]: the
    loop runs as many times as entries are missing. *)
Fixpoint append_blank (missing : nat) (selections : list (Entry V)) : list (Entry V) :=
  match missing with
  | O => selections
  | S missing' => append_blank missing' (selections ++ [blank_entry])
  end.

(** [while len(selections) > num_categories: selections.pop()]: the loop
    runs as many times as entries are in excess. *)
Fixpoint pop_excess (excess : nat) (selections : list (Entry V)) : list (Entry V) :=
  match excess with
  | O => selections
  | S excess' => pop_excess excess' (removelast selections)
  end.

(** The session list brought to the length [num_categories], lines 64
    to 72. *)
Definition adjust_session (num_categories : nat) (session : SessionState V)
    : list (Entry V) :=
  let selections :=
    match ss_selections session with
    | None => replicate num_categories blank_entry
    | Some selections => selections
    end in
  let selections :=
    append_blank (num_categories - length selections) selections in
  pop_excess (length selections - num_categories) selections.

(** The body of the [for] loop, lines 76 to 90, for row [i]; [state] is
    [st.session_state.selections]. *)
Definition gather_row (self : StreamlitApp) (ui : Widgets V) (state : list (Entry V))
    (i : nat) : Script (Entry V) :=
  let category_2_options := unique (cm_category_2 <$> df_categories self) in
  previous ← list_getitem state i;
  index ← preselected_index previous.1.1 category_2_options;
  selected_category_2 ← st_selectbox category_2_options index (w_category_2 ui i);
  let filtered_df_3 :=
    filter (λ row, Some (cm_category_2 row) = selected_category_2)
           (df_categories self) in
  let category_3_options := unique (cm_category_3 <$> filtered_df_3) in
  previous ← list_getitem state i;
  index ← preselected_index previous.1.2 category_3_options;
  selected_category_3 ← st_selectbox category_3_options index (w_category_3 ui i);
  previous ← list_getitem state i;
  weight ← st_number_input vzero v100 previous.2 (w_weight ui i);
  mret (selected_category_2, selected_category_3, weight).

(** The [for i in range(num_categories)] loop, lines 75 to 90. *)
Fixpoint gather_rows (self : StreamlitApp) (ui : Widgets V) (state : list (Entry V))
    (range : list nat) (selections : list (Entry V)) : Script (list (Entry V)) :=
  match range with
  | [] => Returns selections
  | i :: range' =>
      entry ← gather_row self ui state i;
      gather_rows self ui state range' (selections ++ [entry])
  end.

(** [gather_user_inputs()]: the selections, and the session state it
    leaves.  When the loop raises, the session keeps the adjusted
    list. *)
Definition gather_user_inputs (self : StreamlitApp) (ui : Widgets V)
    (session : SessionState V) : Script (list (Entry V)) * SessionState V :=
  let num_categories := st_slider 1 10 3 (w_slider ui) in
  let state := adjust_session num_categories session in
  match gather_rows self ui state (seq 0 num_categories) [] with
  | Returns selections => (Returns selections, mkSessionState (Some selections))
  | Raises e => (Raises e, mkSessionState (Some state))
  end.

End gather_user_inputs.

(** * The vocabulary of the properties

    What the program is expected to compute, written as functions of the
    tables of the warehouse, independently of the store. *)

Section vocabulary.
Context {V : Type} `{Arith V}.
Implicit Types (w : World V) (d : Timestamp) (rows : list (Row V)).

(** ** Series *)

(** [k] times every value, the dates kept: what the in-place product of
    line 120 leaves in the frame. *)
Definition weight_rows (k : V) (rows : list (Row V)) : list (Row V) :=
  (λ r, mkRow (observation_date r) (vmul (adjusted_index_value r) k)) <$> rows.

(** Ascending order of date. *)
Definition rows_le (r1 r2 : Row V) : Prop :=
  ts_le (observation_date r1) (observation_date r2).

(** One value per date, as the data model has it. *)
Definition one_value_per_date (rows : list (Row V)) : Prop :=
  NoDup (observation_date <$> rows).

(** The value a series has on a date. *)
Definition value_on d (rows : list (Row V)) : option V :=
  adjusted_index_value <$> head (filter (λ r, observation_date r = d) rows).

(** ** The display window *)

(** The rows on or after [start]; nothing when [start] is [NaT]. *)
Definition in_window (start : option Timestamp) (r : Row V) : bool :=
  match start with
  | Some s => ts_leb s (observation_date r)
  | None => false
  end.

(** Five calendar years before a date: the same month and day five
    years earlier, 28 February for a 29 February that the earlier year
    does not have. *)
Definition five_years_before (t : Timestamp) : Timestamp :=
  mkTimestamp (year t - 5) (month t)
              (Z.min (day t) (days_in_month (year t - 5) (month t))).

(** The rows of the display window. *)
Definition window (start : option Timestamp) rows : list (Row V) :=
  List.filter (in_window start) rows.

(** The trace drawn for the rows of a frame. *)
Definition trace_of (start : option Timestamp) (label : string) (l : Line) rows
    : Scatter V :=
  mkScatter (observation_date <$> window start rows)
            (adjusted_index_value <$> window start rows) "lines" label l.

(** ** Resolution and survivors *)

(** The identifiers [fetch_series_data] returns for a selection. *)
Definition resolve (db : Database V) (selection : Selection V) : list string :=
  sd_series_id <$>
    filter (details_where (category_2 selection)
              (if str_truthy (category_3 selection)
               then Some (category_3 selection) else None))
           (ppi_series_details db).

(** The rows [fetch_timeseries_data] returns for an identifier. *)
Definition time_series (db : Database V) (series_id : string) : list (Row V) :=
  adjusted_rows series_id (ppi_adjusted_2020 db).

(** A selection that resolved, its first identifier and the time series
    of that identifier. *)
Record Survivor := mkSurvivor {
  sv_selection : Selection V;
  sv_series_id : string;
  sv_series : list (Row V)
}.

(** The survivor a selection gives, if it resolves. *)
Definition survivor (db : Database V) (selection : Selection V) : option Survivor :=
  match resolve db selection with
  | [] => None
  | first :: _ => Some (mkSurvivor selection first (time_series db first))
  end.

(** The survivors of a list of selections, in the order of the list. *)
Definition survivors (db : Database V) (selections : list (Selection V)) : list Survivor :=
  omap (survivor db) selections.

(** The weighted series of a survivor: every value times
    [weight_percent / 100]. *)
Definition weighted_series (sv : Survivor) : list (Row V) :=
  weight_rows (vdiv (weight_percent (sv_selection sv)) v100) (sv_series sv).

(** What a survivor adds to the composite on a date, if it has a row
    there: its value times [weight_percent / 100]. *)
Definition contribution d (sv : Survivor) : option V :=
  (λ v, vmul v (vdiv (weight_percent (sv_selection sv)) v100))
    <$> value_on d (sv_series sv).

End vocabulary.

Arguments Survivor V : clear implicits.

Section vocabulary_runs.
Context {V : Type} `{Arith V}.
Implicit Types (w : World V) (d : Timestamp) (rows : list (Row V))
  (svs : list (Survivor V)) (acc : Collected).

(** ** The composite *)

(** All the weighted values that fall on a date, survivor after
    survivor. *)
Definition contributions d svs : list V :=
  mjoin ((λ sv, group_values d (weighted_series sv)) <$> svs).

(** The rows of the composite: the weighted series put end to end,
    grouped by date and summed. *)
Definition composite_rows svs : list (Row V) :=
  groupby_sum (mjoin (weighted_series <$> svs)).

(** The composite frame: [pd.DataFrame()] when nothing survived. *)
Definition composite_frame svs : DataFrame V :=
  match svs with
  | [] => NoColumns
  | _ => Frame (composite_rows svs)
  end.

(** ** Calls to the warehouse *)

(** The queries one selection causes. *)
Definition selection_queries (db : Database V) (selection : Selection V) : list Query :=
  SeriesDetailsQuery (category_2 selection)
    (if str_truthy (category_3 selection) then Some (category_3 selection) else None)
  :: match resolve db selection with
     | [] => []
     | first :: _ => [AdjustedQuery first]
     end.

(** The identifiers the queries on [marts.ppi_adjusted_2020] asked
    for. *)
Definition fetched (qs : list Query) : list string :=
  omap (λ q, match q with AdjustedQuery sid => Some sid | _ => None end) qs.

(** The number of calls to the warehouse a run of [process_data] makes
    when none fails: one per selection, one more per survivor. *)
Definition calls (db : Database V) (selections : list (Selection V)) : nat :=
  (length selections + length (survivors db selections))%nat.

(** The next [k] connection attempts succeed. *)
Definition answered (k : nat) (w : World V) : Prop :=
  ∀ n, (connects w ≤ n < connects w + k)%nat → online (database w) n = true.

(** Every call [process_data] makes for these selections is answered. *)
Definition reachable (selections : list (Selection V)) (w : World V) : Prop :=
  answered (calls (database w) selections) w.

(** ** The store after a run

    The loop allocates three frames per survivor, the aggregation three
    more (or one, [pd.DataFrame()], when nothing survived); the
    definitions below spell out the store and the references a run ends
    with. *)

(** The frame a reference points to, read as a list of rows. *)
Definition rows_at w (r : ref) : list (Row V) :=
  frame_rows (default NoColumns (heap w !! r)).

(** The frames one survivor leaves in the store: the fetched frame, by
    then weighted in place, the sorted frame, and its copy. *)
Definition survivor_frames (sv : Survivor V) : list (DataFrame V) :=
  [Frame (weighted_series sv); Frame (sort_rows (sv_series sv));
   Frame (sort_rows (sv_series sv))].

(** Every survivor takes three consecutive references, starting at
    [base]; this lists the reference at [offset] in each group. *)
Fixpoint survivor_refs (offset : nat) (base : ref) (svs : list (Survivor V)) : list ref :=
  match svs with
  | [] => []
  | _ :: svs' => (base + offset)%nat :: survivor_refs offset (base + 3)%nat svs'
  end.

(** The four lists after the loop of [process_data]. *)
Definition loop_result (selections : list (Selection V)) acc w : Collected :=
  let svs := survivors (database w) selections in
  mkCollected
    (c_individual_indexes acc ++ survivor_refs 2 (length (heap w)) svs)
    (c_index_categories acc ++ ((λ sv, category_3 (sv_selection sv)) <$> svs))
    (c_index_ids acc ++ (sv_series_id <$> svs))
    (c_weighted_dataframes acc ++ survivor_refs 0 (length (heap w)) svs).

(** The world after the loop of [process_data]. *)
Definition loop_world (selections : list (Selection V)) w : World V :=
  let svs := survivors (database w) selections in
  mkWorld (database w)
    (heap w ++ mjoin (survivor_frames <$> svs))
    (connects w + length selections + length svs)%nat
    (queries w ++ mjoin (selection_queries (database w) <$> selections)).

(** The frames the aggregation allocates: the concatenation, the
    grouped sums, and their sorted copy. *)
Definition aggregate_frames svs : list (DataFrame V) :=
  match svs with
  | [] => [NoColumns]
  | _ => [Frame (mjoin (weighted_series <$> svs)); Frame (composite_rows svs);
          Frame (composite_rows svs)]
  end.

(** The world after [process_data]. *)
Definition final_world (selections : list (Selection V)) w : World V :=
  let svs := survivors (database w) selections in
  mkWorld (database w)
    (heap w ++ mjoin (survivor_frames <$> svs) ++ aggregate_frames svs)
    (connects w + length selections + length svs)%nat
    (queries w ++ mjoin (selection_queries (database w) <$> selections)).

(** What [process_data] returns. *)
Definition final_result (selections : list (Selection V)) w : Processed :=
  let svs := survivors (database w) selections in
  mkProcessed
    (length (heap w) + 3 * length svs + (length (aggregate_frames svs) - 1))%nat
    (survivor_refs 2 (length (heap w)) svs)
    ((λ sv, category_3 (sv_selection sv)) <$> svs)
    (sv_series_id <$> svs).

End vocabulary_runs.

Section vocabulary_values.
Context {V : Type} `{Arith V}.

(** The value a frame shows on a date, 0 when it has no row there. *)
Definition value_at (d : Timestamp) (rows : list (Row V)) : V :=
  default vzero (value_on d rows).

End vocabulary_values.

Section vocabulary_page.
Context {V : Type} `{Arith V} `{Compare V}.

(** ** The page *)

(** A weight within the bounds of the widget. *)
Definition weight_ok (e : Entry V) : Prop := within vzero v100 e.2 = true.

(** A session whose weights, if it has selections, are within the
    bounds. *)
Definition session_ok (session : SessionState V) : Prop :=
  match ss_selections session with
  | None => True
  | Some selections => Forall weight_ok selections
  end.

(** An entry that names a row of the catalog; with an empty catalog,
    the entry without names. *)
Definition in_catalog (self : StreamlitApp) (e : Entry V) : Prop :=
  match e.1.1, e.1.2 with
  | Some c2, Some c3 => mkCommodity c2 c3 ∈ df_categories self
  | None, None => df_categories self = []
  | _, _ => False
  end.

(** The entry of a new row: the first row of the catalog, with weight
    0. *)
Definition default_entry (self : StreamlitApp) : Entry V :=
  match df_categories self with
  | [] => blank_entry
  | c :: _ => (Some (cm_category_2 c), Some (cm_category_3 c), vzero)
  end.

(** The names a row comes up with when the user does not touch it. *)
Definition kept_names (self : StreamlitApp) (previous : Entry V) : option string * option string :=
  match df_categories self with
  | [] => (None, None)
  | first :: _ =>
      let c2 := match previous.1.1 with
                | Some c =>
                    if decide (c ∈ unique (cm_category_2 <$> df_categories self))
                    then c else cm_category_2 first
                | None => cm_category_2 first
                end in
      let options3 :=
        unique (cm_category_3
                  <$> filter (λ row, Some (cm_category_2 row) = Some c2)
                             (df_categories self)) in
      (Some c2,
       match previous.1.2 with
       | Some c => if decide (c ∈ options3) then Some c else head options3
       | None => head options3
       end)
  end.

(** The user has touched no selectbox and no weight. *)
Definition untouched (ui : Widgets V) : Prop :=
  ∀ i, w_category_2 ui i = None ∧ w_category_3 ui i = None ∧ w_weight ui i = None.

End vocabulary_page.

(** ** A worked scenario

    The end-to-end scenario of the specification, in exact rationals:
    steel at 60 %, oil at 40 %, two monthly observations each.  The
    warehouse also holds a second steel series that is never used. *)

Module Scenario.

Definition q (z : Z) : Qc := Q2Qc (inject_Z z).

Definition jan : Timestamp := mkTimestamp 2021 1 1.
Definition feb : Timestamp := mkTimestamp 2021 2 1.

Definition details : list SeriesDetail :=
  [mkSeriesDetail "Metals" "Steel" "WPU1017";
   mkSeriesDetail "Metals" "Steel" "WPU101707";
   mkSeriesDetail "Energy" "Oil" "WPU0561"].

Definition observations : list (AdjustedObservation Qc) :=
  [mkAdjustedObservation "WPU1017" feb (q 12);
   mkAdjustedObservation "WPU0561" jan (q 20);
   mkAdjustedObservation "WPU1017" jan (q 10);
   mkAdjustedObservation "WPU101707" jan (q 99);
   mkAdjustedObservation "WPU0561" feb (q 22)].

Definition warehouse : Database Qc := mkDatabase details observations (λ _, true).

(** The same tables behind a connection that never comes up. *)
Definition unreachable_warehouse : Database Qc :=
  mkDatabase details observations (λ _, false).

Definition start : World Qc := mkWorld warehouse [] 0 [].
Definition start_unreachable : World Qc := mkWorld unreachable_warehouse [] 0 [].

Definition steel : Selection Qc := mkSelection "Metals" "Steel" (q 60).
Definition oil : Selection Qc := mkSelection "Energy" "Oil" (q 40).
(** A pair of categories the warehouse has no series for. *)
Definition copper : Selection Qc := mkSelection "Metals" "Copper" (q 25).
(** Steel again, with no weight. *)
Definition steel_unweighted : Selection Qc := mkSelection "Metals" "Steel" (q 0).

Definition selections : list (Selection Qc) := [steel; oil].

(** Dates and values of a frame, the values as plain fractions. *)
Definition table (df : option (DataFrame Qc)) : option (list (Timestamp * Q)) :=
  match df with
  | Some (Frame rows) =>
      Some ((λ r, (observation_date r, this (adjusted_index_value r))) <$> rows)
  | _ => None
  end.

(** Two series on different calendars, both at 100 %: [A] in January and
    February 2020, [B] in February and March. *)
Definition mar : Timestamp := mkTimestamp 2020 3 1.

Definition staggered_warehouse : Database Qc :=
  mkDatabase
    [mkSeriesDetail "Group" "A" "SERIES-A"; mkSeriesDetail "Group" "B" "SERIES-B"]
    [mkAdjustedObservation "SERIES-A" (mkTimestamp 2020 1 1) (q 3);
     mkAdjustedObservation "SERIES-A" (mkTimestamp 2020 2 1) (q 5);
     mkAdjustedObservation "SERIES-B" (mkTimestamp 2020 2 1) (q 7);
     mkAdjustedObservation "SERIES-B" mar (q 11)]
    (λ _, true).

Definition staggered_selections : list (Selection Qc) :=
  [mkSelection "Group" "A" (q 100); mkSelection "Group" "B" (q 100)].

(** The store after [process_data] on the scenario: the composite is at
    reference 8, the individual frames at 2 and 5. *)
Definition processed : World Qc := (process_data selections start).2.

End Scenario.

(** The page of the scenario: a catalog of four commodities; the user
    asks for two rows, picks Metals / Steel at 60 % and Energy / Oil at
    40 %, then moves the slider to three rows. *)
Module Page.

Definition ppi_all_commodities : list Commodity :=
  [mkCommodity "Metals" "Steel"; mkCommodity "Energy" "Oil";
   mkCommodity "Metals" "Copper"; mkCommodity "Energy" "Gas"].

Definition app : StreamlitApp :=
  mkStreamlitApp (merge_sort commodity_le ppi_all_commodities).

Definition first_visit : SessionState Qc := mkSessionState None.

Definition picks : Widgets Qc :=
  mkWidgets (Some 2%nat)
    (λ i, match i with O => Some 1%nat | _ => None end)
    (λ i, Some 1%nat)
    (λ i, match i with O => Some (Scenario.q 60) | _ => Some (Scenario.q 40) end).

Definition slider_only (n : nat) : Widgets Qc :=
  mkWidgets (Some n) (λ _, None) (λ _, None) (λ _, None).

End Page.

(** Stores for [generate_plot]: a composite with columns and no row
    beside a series, and a composite beside a series and a frame without
    columns. *)
Module Plots.

Definition no_rows : World Qc :=
  mkWorld Scenario.warehouse
    [Frame []; Frame [mkRow Scenario.jan (Scenario.q 10)]] 0 [].

Definition no_columns : World Qc :=
  mkWorld Scenario.warehouse
    [Frame [mkRow Scenario.jan (Scenario.q 14)];
     Frame [mkRow Scenario.jan (Scenario.q 10)];
     NoColumns] 0 [].

(** A composite over ten years that ends on a leap day, beside one
    series. *)
Definition decade : World Qc :=
  mkWorld Scenario.warehouse
    [Frame [mkRow (mkTimestamp 2014 1 1) (Scenario.q 5);
            mkRow (mkTimestamp 2019 2 27) (Scenario.q 6);
            mkRow (mkTimestamp 2019 2 28) (Scenario.q 7);
            mkRow (mkTimestamp 2021 6 1) (Scenario.q 8);
            mkRow (mkTimestamp 2024 2 29) (Scenario.q 9)];
     Frame [mkRow (mkTimestamp 2018 12 31) (Scenario.q 1);
            mkRow (mkTimestamp 2019 2 28) (Scenario.q 2);
            mkRow (mkTimestamp 2023 5 1) (Scenario.q 3)]] 0 [].

(** A composite of the year 4: five years earlier is no date. *)
Definition year_four : World Qc :=
  mkWorld Scenario.warehouse
    [Frame [mkRow (mkTimestamp 4 1 1) (Scenario.q 14)];
     Frame [mkRow (mkTimestamp 4 1 1) (Scenario.q 10)]] 0 [].

(** Three weighted frames with one row each, on the same date, in
    binary64: 1e16, -1e16 and 1. *)
Definition cancelling : World PrimFloat.float :=
  mkWorld (mkDatabase [] [] (λ _, true))
    [Frame [mkRow Scenario.jan Binary64.big];
     Frame [mkRow Scenario.jan Binary64.minus_big];
     Frame [mkRow Scenario.jan Binary64.unit]] 0 [].

End Plots.

(** * Properties *)

(** ** The order on timestamps *)

Lemma ts_compare_refl a : ts_compare a a = Eq.
Proof. unfold ts_compare. by rewrite !Z.compare_refl. Qed.

Lemma ts_compare_eq a b : ts_compare a b = Eq → a = b.
Proof.
  destruct a as [y1 m1 d1], b as [y2 m2 d2]. unfold ts_compare; simpl.
  destruct (y1 ?= y2) eqn:Ey; try done.
  destruct (m1 ?= m2) eqn:Em; try done.
  intros Ed. apply Z.compare_eq in Ey, Em, Ed. by subst.
Qed.

Lemma ts_compare_opp a b : ts_compare b a = CompOpp (ts_compare a b).
Proof.
  unfold ts_compare.
  rewrite (Z.compare_antisym (year a)), (Z.compare_antisym (month a)),
    (Z.compare_antisym (day a)).
  by destruct (year a ?= year b), (month a ?= month b), (day a ?= day b).
Qed.

Lemma ts_compare_lt_iff a b :
  ts_compare a b = Lt ↔
  year a < year b ∨
  (year a = year b ∧ (month a < month b ∨ (month a = month b ∧ day a < day b))).
Proof.
  unfold ts_compare.
  destruct (Z.compare_spec (year a) (year b));
    destruct (Z.compare_spec (month a) (month b));
    destruct (Z.compare_spec (day a) (day b)); split; try done; lia.
Qed.

Lemma ts_compare_lt_trans a b c :
  ts_compare a b = Lt → ts_compare b c = Lt → ts_compare a c = Lt.
Proof. rewrite !ts_compare_lt_iff. lia. Qed.

Lemma ts_leb_refl a : ts_leb a a = true.
Proof. unfold ts_leb. by rewrite ts_compare_refl. Qed.

Lemma ts_leb_total a b : ts_leb a b = true ∨ ts_leb b a = true.
Proof.
  unfold ts_leb. rewrite (ts_compare_opp a b).
  destruct (ts_compare a b); simpl; auto.
Qed.

Lemma ts_leb_antisym a b : ts_leb a b = true → ts_leb b a = true → a = b.
Proof.
  unfold ts_leb. rewrite (ts_compare_opp a b).
  destruct (ts_compare a b) eqn:E; simpl; try done.
  intros _ _. by apply ts_compare_eq.
Qed.

Lemma ts_leb_lt_or_eq a b : ts_leb a b = true ↔ ts_compare a b = Lt ∨ a = b.
Proof.
  unfold ts_leb. split.
  - destruct (ts_compare a b) eqn:E; try done; auto using ts_compare_eq.
  - intros [->| ->]; [done|]. by rewrite ts_compare_refl.
Qed.

Lemma ts_leb_trans a b c :
  ts_leb a b = true → ts_leb b c = true → ts_leb a c = true.
Proof.
  rewrite !ts_leb_lt_or_eq. intros [?| ->] [?| ->]; eauto using ts_compare_lt_trans.
Qed.

Lemma ts_lt_irrefl a : ¬ ts_lt a a.
Proof. unfold ts_lt. by rewrite ts_compare_refl. Qed.

#[global] Instance ts_le_preorder : PreOrder ts_le.
Proof.
  split.
  - intros a. apply ts_leb_refl.
  - intros a b c. apply ts_leb_trans.
Qed.

#[global] Instance ts_lt_strict : StrictOrder ts_lt.
Proof.
  split.
  - intros a. apply ts_lt_irrefl.
  - intros a b c. apply ts_compare_lt_trans.
Qed.

(** The calendar at work: five years back from a leap day. *)
Example sub_years_leap_day :
  sub_years 5 (mkTimestamp 2024 2 29) = Some (mkTimestamp 2019 2 28).
Proof. reflexivity. Qed.

#[global] Instance ts_lt_antisym : AntiSymm (=) ts_lt.
Proof.
  intros a b Hab Hba. destruct (ts_lt_irrefl a). by etrans.
Qed.

(** ** Columns, masks and sorting *)

Section frame_facts.
Context {V : Type} `{Arith V}.
Implicit Types (r : Row V) (rows : list (Row V)) (d : Timestamp).

#[global] Instance rows_le_preorder : PreOrder (@rows_le V).
Proof.
  split.
  - intros r. apply ts_leb_refl.
  - intros r1 r2 r3. apply ts_leb_trans.
Qed.

Lemma set_dates_same rows : set_dates rows (observation_date <$> rows) = rows.
Proof.
  unfold set_dates. induction rows as [|[d v] rows IH]; simpl; [done|].
  by f_equal.
Qed.

Lemma set_values_mul rows k :
  set_values rows (series_mul (adjusted_index_value <$> rows) k) = weight_rows k rows.
Proof.
  unfold set_values, series_mul, weight_rows.
  induction rows as [|r rows IH]; simpl; [done|]. by f_equal.
Qed.

Lemma select_mask_window rows start :
  select_mask rows (series_ge (observation_date <$> rows) start)
  = List.filter (in_window start) rows.
Proof.
  unfold series_ge, in_window.
  induction rows as [|r rows IH]; csimpl; [done|].
  destruct start as [s|]; [destruct (ts_leb s _)|]; by f_equal.
Qed.

Lemma series_max_ge dates last d :
  series_max dates = Some last → d ∈ dates → ts_le d last.
Proof.
  destruct dates as [|d0 rest]; simpl; [done|]. intros [= <-].
  revert d0 d. induction rest as [|d1 rest IH]; intros d0 d Hd; simpl.
  - apply list_elem_of_singleton in Hd as ->. apply ts_leb_refl.
  - apply elem_of_cons in Hd as [->|Hd].
    + trans (ts_max d0 d1).
      * unfold ts_max. destruct (ts_leb d0 d1) eqn:E; [done|apply ts_leb_refl].
      * apply IH. left.
    + apply elem_of_cons in Hd as [->|Hd].
      * trans (ts_max d0 d1).
        -- unfold ts_max. destruct (ts_leb d0 d1) eqn:E; [apply ts_leb_refl|].
           by destruct (ts_leb_total d0 d1); [congruence|].
        -- apply IH. left.
      * apply IH. by right.
Qed.

Lemma series_max_elem dates last : series_max dates = Some last → last ∈ dates.
Proof.
  destruct dates as [|d0 rest]; simpl; [done|]. intros [= <-].
  revert d0. induction rest as [|d1 rest IH]; intros d0; simpl; [left|].
  unfold ts_max at 2. destruct (ts_leb d0 d1).
  - right. apply IH.
  - specialize (IH d0). apply elem_of_cons in IH as [->|?]; [left|by do 2 right].
Qed.

(** *** [sort_values] *)

Lemma insert_row_perm r rows : insert_row r rows ≡ₚ r :: rows.
Proof.
  induction rows as [|r' rows IH]; simpl; [done|].
  destruct (ts_leb _ _); [done|]. rewrite IH. apply Permutation_swap.
Qed.

Lemma sort_rows_perm rows : sort_rows rows ≡ₚ rows.
Proof.
  induction rows as [|r rows IH]; simpl; [done|].
  by rewrite insert_row_perm, IH.
Qed.

Lemma insert_row_sorted r rows :
  Sorted rows_le rows → Sorted rows_le (insert_row r rows).
Proof.
  induction 1 as [|r' rows Hs IH Hhd]; simpl.
  - by repeat constructor.
  - destruct (ts_leb (observation_date r) (observation_date r')) eqn:E.
    + by repeat constructor.
    + constructor; [done|].
      assert (rows_le r' r) as Hle.
      { unfold rows_le, ts_le. destruct (ts_leb_total (observation_date r)
          (observation_date r')); congruence. }
      destruct Hhd as [|r'' rows' Hle']; simpl; [by constructor|].
      destruct (ts_leb (observation_date r) (observation_date r'')); by constructor.
Qed.

Lemma sort_rows_sorted rows : Sorted rows_le (sort_rows rows).
Proof.
  induction rows as [|r rows IH]; simpl; [constructor|].
  by apply insert_row_sorted.
Qed.

Lemma sort_rows_of_sorted rows : Sorted rows_le rows → sort_rows rows = rows.
Proof.
  induction 1 as [|r rows Hs IH Hhd]; simpl; [done|].
  fold (sort_rows rows). rewrite IH.
  destruct Hhd as [|r' rows' Hle]; simpl; [done|]. by rewrite Hle.
Qed.

(** *** [groupby] keys *)

Lemma elem_of_insert_key d' d keys : d' ∈ insert_key d keys ↔ d' = d ∨ d' ∈ keys.
Proof.
  induction keys as [|k keys IH]; simpl.
  - rewrite list_elem_of_singleton, elem_of_nil. tauto.
  - destruct (ts_compare d k) eqn:E.
    + apply ts_compare_eq in E as ->. rewrite !elem_of_cons. tauto.
    + rewrite !elem_of_cons. tauto.
    + rewrite !elem_of_cons, IH. tauto.
Qed.

Lemma elem_of_group_keys d dates : d ∈ group_keys dates ↔ d ∈ dates.
Proof.
  induction dates as [|d0 dates IH]; simpl; [done|].
  fold (group_keys dates). rewrite elem_of_insert_key, elem_of_cons, IH. tauto.
Qed.

Lemma insert_key_sorted d keys :
  Sorted ts_lt keys → Sorted ts_lt (insert_key d keys).
Proof.
  induction 1 as [|k keys Hs IH Hhd]; simpl.
  - by repeat constructor.
  - destruct (ts_compare d k) eqn:E.
    + by constructor.
    + by repeat constructor.
    + constructor; [done|].
      assert (ts_lt k d) as Hlt.
      { unfold ts_lt. rewrite ts_compare_opp, E. done. }
      destruct Hhd as [|k' keys' Hlt']; simpl; [by constructor|].
      destruct (ts_compare d k'); by constructor.
Qed.

Lemma group_keys_sorted dates : Sorted ts_lt (group_keys dates).
Proof.
  induction dates as [|d dates IH]; simpl; [constructor|].
  by apply insert_key_sorted.
Qed.

Lemma sorted_lt_NoDup (keys : list Timestamp) : Sorted ts_lt keys → NoDup keys.
Proof.
  intros Hs. apply Sorted_StronglySorted in Hs; [|apply _].
  induction Hs as [|k keys Hs IH Hall]; constructor; [|done].
  intros Hin. rewrite Forall_forall in Hall.
  by apply (ts_lt_irrefl k), Hall.
Qed.

(** Two ascending lists of distinct dates with the same members are the
    same list. *)
Lemma sorted_lt_unique (l1 l2 : list Timestamp) :
  Sorted ts_lt l1 → Sorted ts_lt l2 → (∀ d, d ∈ l1 ↔ d ∈ l2) → l1 = l2.
Proof.
  intros H1 H2 Hiff. apply (Sorted_unique ts_lt); [done..|].
  apply NoDup_Permutation; auto using sorted_lt_NoDup.
Qed.

Lemma sorted_lt_le (keys : list Timestamp) : Sorted ts_lt keys → Sorted ts_le keys.
Proof.
  induction 1 as [|k keys Hs IH Hhd]; constructor; [done|].
  destruct Hhd as [|k' keys' Hlt]; constructor.
  apply ts_leb_lt_or_eq. by left.
Qed.

(** *** [groupby(...).sum()] *)

Lemma groupby_sum_dates rows :
  observation_date <$> groupby_sum rows = group_keys (observation_date <$> rows).
Proof.
  unfold groupby_sum. generalize (group_keys (observation_date <$> rows)).
  intros keys. induction keys as [|k keys IH]; csimpl; by f_equal.
Qed.

Lemma groupby_sum_sorted rows : Sorted rows_le (groupby_sum rows).
Proof.
  assert (∀ l : list (Row V), Sorted ts_le (observation_date <$> l) → Sorted rows_le l)
    as Hmap.
  { induction l as [|r l IH]; simpl; [constructor|].
    inversion_clear 1 as [|?? Hs Hhd]. constructor; [auto|].
    destruct l; simpl in *; constructor. by inversion_clear Hhd. }
  apply Hmap. rewrite groupby_sum_dates.
  apply sorted_lt_le, group_keys_sorted.
Qed.

(** The final [sort_values] finds the groups already in order. *)
Lemma sort_rows_groupby_sum rows : sort_rows (groupby_sum rows) = groupby_sum rows.
Proof. apply sort_rows_of_sorted, groupby_sum_sorted. Qed.

Lemma elem_of_groupby_sum r rows :
  r ∈ groupby_sum rows ↔
  observation_date r ∈ observation_date <$> rows ∧
  adjusted_index_value r = vsum (group_values (observation_date r) rows).
Proof.
  unfold groupby_sum. rewrite list_elem_of_fmap. split.
  - intros (d & -> & Hd). simpl. rewrite elem_of_group_keys in Hd. by split.
  - intros [Hd Hv]. exists (observation_date r). split.
    + destruct r; simpl in *. by subst.
    + by rewrite elem_of_group_keys.
Qed.

Lemma group_values_app d rows1 rows2 :
  group_values d (rows1 ++ rows2) = group_values d rows1 ++ group_values d rows2.
Proof. unfold group_values. by rewrite filter_app, fmap_app. Qed.

Lemma group_values_mjoin d (rowss : list (list (Row V))) :
  group_values d (mjoin rowss) = mjoin (group_values d <$> rowss).
Proof.
  induction rowss as [|rows rowss IH]; simpl; [done|].
  by rewrite group_values_app, IH.
Qed.

Lemma group_values_perm d rows1 rows2 :
  rows1 ≡ₚ rows2 → group_values d rows1 ≡ₚ group_values d rows2.
Proof. unfold group_values. by intros ->. Qed.

End frame_facts.

(** ** Sums in exact arithmetic *)

Section sums.
Context {V : Type} `{ExactArith V}.

Lemma vadd_zero_r (x : V) : vadd x vzero = x.
Proof. by rewrite vadd_comm, vadd_zero_l. Qed.

Lemma foldl_vadd (a : V) (l : list V) : foldl vadd a l = vadd a (vsum l).
Proof.
  unfold vsum. revert a. induction l as [|x l IH]; intros a; simpl.
  - by rewrite vadd_zero_r.
  - by rewrite IH, (IH (vadd vzero x)), vadd_zero_l, vadd_assoc.
Qed.

Lemma vsum_cons (x : V) (l : list V) : vsum (x :: l) = vadd x (vsum l).
Proof. unfold vsum at 1. simpl. by rewrite foldl_vadd, vadd_zero_l. Qed.

Lemma vsum_app (l1 l2 : list V) : vsum (l1 ++ l2) = vadd (vsum l1) (vsum l2).
Proof. unfold vsum at 1. by rewrite foldl_app, foldl_vadd. Qed.

Lemma vsum_perm (l1 l2 : list V) : l1 ≡ₚ l2 → vsum l1 = vsum l2.
Proof.
  induction 1 as [|x l1 l2 _ IH|x y l|l1 l2 l3 _ IH1 _ IH2].
  - done.
  - by rewrite !vsum_cons, IH.
  - rewrite !vsum_cons, !vadd_assoc. f_equal. apply vadd_comm.
  - by rewrite IH1.
Qed.

Lemma vsum_zeros (l : list V) : Forall (λ x, x = vzero) l → vsum l = vzero.
Proof.
  induction 1 as [|x l -> _ IH]; [done|]. by rewrite vsum_cons, IH, vadd_zero_l.
Qed.

(** Entries equal to zero can be left out of a sum. *)
Lemma vsum_skip_zeros (l1 zeros l2 : list V) :
  Forall (λ x, x = vzero) zeros → vsum (l1 ++ zeros ++ l2) = vsum (l1 ++ l2).
Proof.
  intros Hz. by rewrite !vsum_app, (vsum_zeros zeros Hz), vadd_zero_l.
Qed.

End sums.

#[global] Instance Qc_ExactArith : ExactArith Qc.
Proof.
  split; simpl.
  - apply Qcplus_comm.
  - apply Qcplus_assoc.
  - apply Qcplus_0_l.
  - intros x. unfold Qcdiv. by rewrite Qcmult_0_l, Qcmult_0_r.
Qed.

(** ** Running the operations *)

Section runs.
Context {V : Type} `{Arith V}.
Implicit Types (w : World V) (r : ref) (df : DataFrame V) (rows : list (Row V)).

Lemma bind_ok {A B} (m : M V A) (f : A → M V B) w a w' :
  m w = (Ok a, w') → (m ≫= f) w = f a w'.
Proof. unfold mbind, M_bind. by intros ->. Qed.

Lemma bind_raise {A B} (m : M V A) (f : A → M V B) w e w' :
  m w = (Raise e, w') → (m ≫= f) w = (Raise e, w').
Proof. unfold mbind, M_bind. by intros ->. Qed.

Lemma read_run r df w : heap w !! r = Some df → read r w = (Ok df, w).
Proof. unfold read. by intros ->. Qed.

Lemma write_run r df w :
  (r < length (heap w))%nat →
  write r df w = (Ok (), set_heap (<[r := df]> (heap w)) w).
Proof. unfold write. intros. by rewrite decide_True. Qed.

Lemma df_getitem_dates_run r rows w :
  heap w !! r = Some (Frame rows) →
  df_getitem_dates r w = (Ok (observation_date <$> rows), w).
Proof. intros Hr. unfold df_getitem_dates. by rewrite (bind_ok _ _ _ _ _ (read_run _ _ _ Hr)). Qed.

Lemma df_getitem_dates_no_columns r w :
  heap w !! r = Some NoColumns →
  df_getitem_dates r w = (Raise (KeyError "observation_date"), w).
Proof. intros Hr. unfold df_getitem_dates. by rewrite (bind_ok _ _ _ _ _ (read_run _ _ _ Hr)). Qed.

Lemma df_getitem_values_run r rows w :
  heap w !! r = Some (Frame rows) →
  df_getitem_values r w = (Ok (adjusted_index_value <$> rows), w).
Proof. intros Hr. unfold df_getitem_values. by rewrite (bind_ok _ _ _ _ _ (read_run _ _ _ Hr)). Qed.

Lemma df_setitem_dates_run r rows dates w :
  heap w !! r = Some (Frame rows) → length dates = length rows →
  df_setitem_dates r dates w
  = (Ok (), set_heap (<[r := Frame (set_dates rows dates)]> (heap w)) w).
Proof.
  intros Hr Hlen. unfold df_setitem_dates.
  rewrite (bind_ok _ _ _ _ _ (read_run _ _ _ Hr)), decide_True by done.
  apply write_run. by eapply lookup_lt_Some.
Qed.

Lemma df_setitem_values_run r rows values w :
  heap w !! r = Some (Frame rows) → length values = length rows →
  df_setitem_values r values w
  = (Ok (), set_heap (<[r := Frame (set_values rows values)]> (heap w)) w).
Proof.
  intros Hr Hlen. unfold df_setitem_values.
  rewrite (bind_ok _ _ _ _ _ (read_run _ _ _ Hr)), decide_True by done.
  apply write_run. by eapply lookup_lt_Some.
Qed.

Lemma df_getitem_mask_run r rows mask w :
  heap w !! r = Some (Frame rows) → length mask = length rows →
  df_getitem_mask r mask w
  = (Ok (length (heap w)), set_heap (heap w ++ [Frame (select_mask rows mask)]) w).
Proof.
  intros Hr Hlen. unfold df_getitem_mask.
  by rewrite (bind_ok _ _ _ _ _ (read_run _ _ _ Hr)), decide_True by done.
Qed.

Lemma df_sort_values_run r rows w :
  heap w !! r = Some (Frame rows) →
  df_sort_values r w
  = (Ok (length (heap w)), set_heap (heap w ++ [Frame (sort_rows rows)]) w).
Proof. intros Hr. unfold df_sort_values. by rewrite (bind_ok _ _ _ _ _ (read_run _ _ _ Hr)). Qed.

Lemma df_copy_run r df w :
  heap w !! r = Some df →
  df_copy r w = (Ok (length (heap w)), set_heap (heap w ++ [df]) w).
Proof. intros Hr. unfold df_copy. by rewrite (bind_ok _ _ _ _ _ (read_run _ _ _ Hr)). Qed.

Lemma df_groupby_sum_run r rows w :
  heap w !! r = Some (Frame rows) →
  df_groupby_sum r w
  = (Ok (length (heap w)), set_heap (heap w ++ [Frame (groupby_sum rows)]) w).
Proof. intros Hr. unfold df_groupby_sum. by rewrite (bind_ok _ _ _ _ _ (read_run _ _ _ Hr)). Qed.

Lemma read_all_run rs (dfs : list (DataFrame V)) w :
  Forall2 (λ r df, heap w !! r = Some df) rs dfs → read_all rs w = (Ok dfs, w).
Proof.
  induction 1 as [|r df rs dfs Hr _ IH]; simpl; [done|].
  rewrite (bind_ok _ _ _ _ _ (read_run _ _ _ Hr)).
  by rewrite (bind_ok _ _ _ _ _ IH).
Qed.

Lemma concat_frames_frames (rowss : list (list (Row V))) :
  rowss ≠ [] → concat_frames (Frame <$> rowss) = Frame (mjoin rowss).
Proof.
  destruct rowss as [|rows rowss]; [done|]. intros _.
  unfold concat_frames. simpl. do 2 f_equal.
  induction rowss as [|rows' rowss IH]; simpl; by f_equal.
Qed.

Lemma pd_concat_run rs (rowss : list (list (Row V))) w :
  rs ≠ [] →
  Forall2 (λ r rows, heap w !! r = Some (Frame rows)) rs rowss →
  pd_concat rs w
  = (Ok (length (heap w)), set_heap (heap w ++ [Frame (mjoin rowss)]) w).
Proof.
  intros Hne Hrs. assert (rowss ≠ []) as Hne'.
  { intros ->. by apply Forall2_nil_inv_r in Hrs. }
  unfold pd_concat. destruct rs as [|r rs]; [done|].
  rewrite (bind_ok _ _ _ (Frame <$> rowss) w).
  - by rewrite concat_frames_frames.
  - apply read_all_run. by apply Forall2_fmap_r.
Qed.

(** *** The queries *)

Lemma fetch_series_data_run (selection : Selection V) w :
  online (database w) (connects w) = true →
  fetch_series_data (category_2 selection) (category_3 selection) w
  = (Ok (resolve (database w) selection),
     log_query (SeriesDetailsQuery (category_2 selection)
                  (if str_truthy (category_3 selection)
                   then Some (category_3 selection) else None))
               (bump_connects w)).
Proof.
  intros Hon. unfold fetch_series_data, connect_to_database, mbind, M_bind.
  by rewrite Hon.
Qed.

Lemma fetch_series_data_offline c2 c3 w :
  online (database w) (connects w) = false →
  @fetch_series_data V c2 c3 w = (Raise OperationalError, bump_connects w).
Proof.
  intros Hoff. unfold fetch_series_data, connect_to_database, mbind, M_bind.
  by rewrite Hoff.
Qed.

Lemma fetch_timeseries_data_run first others w :
  online (database w) (connects w) = true →
  fetch_timeseries_data (first :: others) w
  = (Ok (length (heap w)),
     set_heap (heap w ++ [Frame (time_series (database w) first)])
       (log_query (AdjustedQuery first) (bump_connects w))).
Proof.
  intros Hon. unfold fetch_timeseries_data, connect_to_database, mbind, M_bind.
  by rewrite Hon.
Qed.

Lemma fetch_timeseries_data_offline series_id w :
  online (database w) (connects w) = false →
  @fetch_timeseries_data V series_id w = (Raise OperationalError, bump_connects w).
Proof.
  intros Hoff. unfold fetch_timeseries_data, connect_to_database, mbind, M_bind.
  by rewrite Hoff.
Qed.

End runs.

(** ** One round of the loop of [process_data] *)

Section loop.
Context {V : Type} `{Arith V}.
Implicit Types (w : World V) (acc : Collected).

Lemma process_selections_dropped selection rest acc w :
  online (database w) (connects w) = true →
  resolve (database w) selection = [] →
  process_selections (selection :: rest) acc w
  = process_selections rest acc
      (mkWorld (database w) (heap w) (S (connects w))
         (queries w ++ selection_queries (database w) selection)).
Proof.
  intros Hon Hres. simpl.
  rewrite (bind_ok _ _ _ _ _ (fetch_series_data_run selection w Hon)).
  unfold selection_queries. by rewrite Hres.
Qed.

Lemma process_selections_survivor selection rest acc w first others :
  online (database w) (connects w) = true →
  online (database w) (S (connects w)) = true →
  resolve (database w) selection = first :: others →
  process_selections (selection :: rest) acc w
  = process_selections rest
      (mkCollected (c_individual_indexes acc ++ [S (S (length (heap w)))])
                   (c_index_categories acc ++ [category_3 selection])
                   (c_index_ids acc ++ [first])
                   (c_weighted_dataframes acc ++ [length (heap w)]))
      (mkWorld (database w)
         (heap w ++ survivor_frames
                      (mkSurvivor selection first (time_series (database w) first)))
         (S (S (connects w)))
         (queries w ++ selection_queries (database w) selection)).
Proof.
  intros Hon1 Hon2 Hres. simpl.
  rewrite (bind_ok _ _ _ _ _ (fetch_series_data_run selection w Hon1)).
  unfold selection_queries. rewrite Hres.
  erewrite bind_ok; [|by apply fetch_timeseries_data_run].
  cbn [heap log_query bump_connects set_heap database connects queries].
  set (h := heap w). set (ts := time_series (database w) first).
  erewrite bind_ok;
    [|apply (df_getitem_dates_run _ ts); apply (list_lookup_middle h []); done].
  erewrite bind_ok;
    [|apply (df_setitem_dates_run _ ts);
      [apply (list_lookup_middle h []); done
      |by unfold pd_to_datetime; rewrite length_fmap]].
  unfold pd_to_datetime. rewrite set_dates_same.
  cbn [heap log_query bump_connects set_heap database connects queries].
  rewrite (list_insert_id (h ++ [Frame ts]))
    by (apply (list_lookup_middle h []); done).
  erewrite bind_ok;
    [|apply (df_sort_values_run _ ts); apply (list_lookup_middle h []); done].
  cbn [heap log_query bump_connects set_heap database connects queries].
  erewrite bind_ok;
    [|apply (df_copy_run _ (Frame (sort_rows ts)));
      apply (list_lookup_middle (h ++ [Frame ts]) []); done].
  cbn [heap log_query bump_connects set_heap database connects queries].
  rewrite <-!app_assoc. simpl app.
  erewrite bind_ok;
    [|apply (df_getitem_values_run _ ts); apply (list_lookup_middle h); done].
  erewrite bind_ok;
    [|apply (df_setitem_values_run _ ts);
      [apply (list_lookup_middle h); done
      |by unfold series_mul; rewrite !length_fmap]].
  rewrite set_values_mul.
  cbn [heap log_query bump_connects set_heap database connects queries].
  rewrite insert_app_r_alt, Nat.sub_diag by done. simpl.
  rewrite !length_app. simpl.
  replace (length h + 2)%nat with (S (S (length h))) by lia.
  f_equal. unfold set_heap, log_query, bump_connects. simpl.
  by rewrite <-app_assoc.
Qed.

End loop.

(** ** The whole loop *)

Section loop_result.
Context {V : Type} `{Arith V}.
Implicit Types (w : World V) (acc : Collected) (svs : list (Survivor V)).

Lemma survivors_cons_dropped (db : Database V) selection rest :
  resolve db selection = [] → survivors db (selection :: rest) = survivors db rest.
Proof. intros Hres. unfold survivors. simpl. unfold survivor at 1. by rewrite Hres. Qed.

Lemma survivors_cons_survivor (db : Database V) selection rest first others :
  resolve db selection = first :: others →
  survivors db (selection :: rest)
  = mkSurvivor selection first (time_series db first) :: survivors db rest.
Proof. intros Hres. unfold survivors. simpl. unfold survivor at 1. by rewrite Hres. Qed.

Lemma calls_cons_dropped (db : Database V) selection rest :
  resolve db selection = [] → calls db (selection :: rest) = S (calls db rest).
Proof. intros Hres. unfold calls. by rewrite (survivors_cons_dropped _ _ _ Hres). Qed.

Lemma calls_cons_survivor (db : Database V) selection rest first others :
  resolve db selection = first :: others →
  calls db (selection :: rest) = S (S (calls db rest)).
Proof.
  intros Hres. unfold calls. rewrite (survivors_cons_survivor _ _ _ _ _ Hres).
  simpl. lia.
Qed.

Lemma process_selections_ok selections acc w :
  reachable selections w →
  process_selections selections acc w
  = (Ok (loop_result selections acc w), loop_world selections w).
Proof.
  unfold reachable.
  revert acc w. induction selections as [|selection rest IH]; intros acc w Hw.
  - simpl. unfold loop_result, loop_world. simpl. destruct acc, w; simpl.
    unfold mret, M_ret. repeat f_equal; rewrite ?app_nil_r; try done; lia.
  - destruct (resolve (database w) selection) as [|first others] eqn:Hres.
    + rewrite (calls_cons_dropped _ _ _ Hres) in Hw.
      rewrite process_selections_dropped by (try apply Hw; done || lia).
      rewrite IH by (intros n Hn; apply Hw; simpl in *; lia).
      unfold loop_result, loop_world.
      cbn [database heap connects queries].
      rewrite (survivors_cons_dropped _ _ _ Hres). cbn [fmap list_fmap mjoin list_join length].
      rewrite <-app_assoc. do 2 f_equal. lia.
    + rewrite (calls_cons_survivor _ _ _ _ _ Hres) in Hw.
      erewrite process_selections_survivor; [|apply Hw; lia..|done].
      rewrite IH by (intros n Hn; apply Hw; simpl in *; lia).
      unfold loop_result, loop_world.
      cbn [database heap connects queries c_individual_indexes c_index_categories
           c_index_ids c_weighted_dataframes].
      rewrite (survivors_cons_survivor _ _ _ _ _ Hres).
      cbn [fmap list_fmap mjoin list_join length survivor_refs sv_selection sv_series_id].
      rewrite !length_app, <-!app_assoc. cbn [length survivor_frames app].
      rewrite Nat.add_0_r.
      replace (length (heap w) + 2)%nat with (S (S (length (heap w)))) by lia.
      do 2 f_equal. cbn [length]. lia.
Qed.

End loop_result.

(** ** The aggregation and the result of [process_data] *)

Section result.
Context {V : Type} `{Arith V}.
Implicit Types (w : World V) (svs : list (Survivor V)).

Lemma aggregate_nil w :
  aggregate [] w = (Ok (length (heap w)), set_heap (heap w ++ [NoColumns]) w).
Proof. done. Qed.

Lemma aggregate_run rs (rowss : list (list (Row V))) w :
  rs ≠ [] →
  Forall2 (λ r rows, heap w !! r = Some (Frame rows)) rs rowss →
  aggregate rs w
  = (Ok (length (heap w) + 2)%nat,
     set_heap (heap w ++ [Frame (mjoin rowss); Frame (groupby_sum (mjoin rowss));
                          Frame (groupby_sum (mjoin rowss))]) w).
Proof.
  intros Hne Hrs. unfold aggregate. destruct rs as [|r rs]; [done|].
  rewrite (bind_ok _ _ _ _ _ (pd_concat_run _ _ _ Hne Hrs)).
  erewrite bind_ok;
    [|apply (df_groupby_sum_run _ (mjoin rowss));
      apply (list_lookup_middle (heap w) []); done].
  cbn [heap set_heap].
  erewrite df_sort_values_run;
    [|apply (list_lookup_middle (heap w ++ [_]) []); done].
  cbn [heap set_heap database connects queries].
  rewrite sort_rows_groupby_sum, !length_app, <-!app_assoc. simpl.
  unfold set_heap. simpl. do 2 f_equal. lia.
Qed.

Lemma length_survivor_frames svs :
  length (mjoin (survivor_frames <$> svs)) = (3 * length svs)%nat.
Proof.
  induction svs as [|sv svs IH]; [done|].
  change (mjoin (survivor_frames <$> sv :: svs))
    with (survivor_frames sv ++ mjoin (survivor_frames <$> svs)).
  rewrite length_app, IH. simpl. lia.
Qed.

Lemma length_survivor_refs offset base svs :
  length (survivor_refs offset base svs) = length svs.
Proof.
  revert base. induction svs as [|sv svs IH]; intros base; simpl; [done|].
  by rewrite IH.
Qed.

(** Each survivor's references point into its own group of frames. *)
Lemma survivor_refs_lookup offset (h tail : list (DataFrame V)) svs :
  (offset < 3)%nat →
  Forall2 (λ r sv, (h ++ mjoin (survivor_frames <$> svs) ++ tail) !! r
                   = survivor_frames sv !! offset)
          (survivor_refs offset (length h) svs) svs.
Proof.
  intros Hoff. revert h. induction svs as [|sv svs IH]; intros h; simpl.
  - constructor.
  - constructor.
    + rewrite lookup_app_r by lia.
      replace (length h + offset - length h)%nat with offset by lia.
      destruct offset as [|[|[|?]]]; simpl; done || lia.
    + specialize (IH (h ++ survivor_frames sv)).
      rewrite length_app in IH. simpl in IH.
      eapply Forall2_impl; [exact IH|]. intros r sv' Hr. simpl in Hr.
      by rewrite <-app_assoc in Hr.
Qed.

Lemma process_data_ok selections w :
  reachable selections w →
  process_data selections w
  = (Ok (final_result selections w), final_world selections w).
Proof.
  intros Hw. unfold process_data.
  rewrite (bind_ok _ _ _ _ _ (process_selections_ok selections _ w Hw)).
  unfold loop_result, loop_world, final_result, final_world.
  cbn [c_individual_indexes c_index_categories c_index_ids c_weighted_dataframes app].
  destruct (survivors (database w) selections) as [|sv svs'] eqn:Hsvs.
  - simpl survivor_refs. rewrite (bind_ok _ _ _ _ _ (aggregate_nil _)).
    unfold mret, M_ret, set_heap. simpl. rewrite !app_nil_r, !Nat.add_0_r. done.
  - rewrite <-Hsvs.
    set (w1 := mkWorld _ _ _ _).
    assert (survivor_refs 0 (length (heap w)) (survivors (database w) selections) ≠ [])
      as Hne by (by rewrite Hsvs).
    assert (Forall2 (λ r rows, heap w1 !! r = Some (Frame rows))
              (survivor_refs 0 (length (heap w)) (survivors (database w) selections))
              (weighted_series <$> survivors (database w) selections)) as Hrefs.
    { pose proof (survivor_refs_lookup 0 (heap w) [] (survivors (database w) selections))
        as Hrefs.
      rewrite app_nil_r in Hrefs. apply Forall2_fmap_r.
      eapply Forall2_impl; [apply Hrefs; lia|].
      intros r sv0 Hr. unfold w1. cbn [heap]. by rewrite Hr. }
    rewrite (bind_ok _ _ _ _ _ (aggregate_run _ _ _ Hne Hrefs)).
    unfold mret, M_ret, set_heap, w1. cbn [heap database connects queries].
    rewrite length_app, length_survivor_frames, <-app_assoc.
    assert (aggregate_frames (survivors (database w) selections)
            = [Frame (mjoin (weighted_series <$> survivors (database w) selections));
               Frame (composite_rows (survivors (database w) selections));
               Frame (composite_rows (survivors (database w) selections))]) as ->
      by (by rewrite Hsvs).
    done.
Qed.

End result.

(** ** What the outputs of [process_data] hold *)

Section outputs.
Context {V : Type} `{Arith V}.
Implicit Types (w : World V) (svs : list (Survivor V)) (d : Timestamp).

Lemma final_world_aggregated selections w :
  heap (final_world selections w) !! aggregated_index (final_result selections w)
  = Some (composite_frame (survivors (database w) selections)).
Proof.
  unfold final_world, final_result. cbn [heap aggregated_index].
  set (svs := survivors (database w) selections).
  rewrite app_assoc, lookup_app_r by (rewrite length_app, length_survivor_frames; lia).
  rewrite length_app, length_survivor_frames.
  replace (_ - _)%nat with (length (aggregate_frames svs) - 1)%nat by lia.
  by destruct svs.
Qed.

Lemma final_world_individual selections w :
  Forall2 (λ r sv, heap (final_world selections w) !! r
                   = Some (Frame (sort_rows (sv_series sv))))
          (individual_indexes (final_result selections w))
          (survivors (database w) selections).
Proof.
  unfold final_world, final_result. cbn [heap individual_indexes].
  eapply Forall2_impl; [apply (survivor_refs_lookup 2); lia|].
  by intros r sv ->.
Qed.

(** [process_data] only adds objects to the store, except for the
    frames it fetched itself: what was there before is still there. *)
Lemma final_world_frame selections w r df :
  heap w !! r = Some df → heap (final_world selections w) !! r = Some df.
Proof. intros Hr. unfold final_world. cbn [heap]. by apply lookup_app_l_Some. Qed.

(** *** The composite, date by date *)

Lemma group_values_weight d k (rows : list (Row V)) :
  group_values d (weight_rows k rows) = (λ v, vmul v k) <$> group_values d rows.
Proof.
  unfold group_values, weight_rows.
  induction rows as [|r rows IH]; [done|]. csimpl.
  rewrite !filter_cons. simpl. destruct (decide (observation_date r = d)); csimpl;
    by rewrite IH.
Qed.

Lemma weight_rows_dates k (rows : list (Row V)) :
  observation_date <$> weight_rows k rows = observation_date <$> rows.
Proof.
  unfold weight_rows. induction rows as [|r rows IH]; csimpl; by f_equal.
Qed.

Lemma filter_date_NoDup d (rows : list (Row V)) :
  one_value_per_date rows →
  filter (λ r, observation_date r = d) rows
  = option_list (head (filter (λ r, observation_date r = d) rows)).
Proof.
  unfold one_value_per_date. induction rows as [|r rows IH]; [done|].
  csimpl. rewrite NoDup_cons. intros [Hr Hnd]. rewrite filter_cons.
  destruct (decide (observation_date r = d)) as [<-|Hne]; [|by apply IH].
  simpl. f_equal. apply elem_of_nil_inv. intros r' Hr'.
  apply list_elem_of_filter in Hr' as [Heq Hin]. apply Hr.
  rewrite <-Heq. by apply list_elem_of_fmap_2.
Qed.

Lemma group_values_one_value d (rows : list (Row V)) :
  one_value_per_date rows → group_values d rows = option_list (value_on d rows).
Proof.
  intros Hnd. unfold group_values, value_on. rewrite (filter_date_NoDup d rows Hnd).
  by destruct (head _).
Qed.

Lemma elem_of_value_on d (rows : list (Row V)) :
  is_Some (value_on d rows) ↔ d ∈ observation_date <$> rows.
Proof.
  unfold value_on. rewrite fmap_is_Some, list_elem_of_fmap. split.
  - intros [r Hr]. apply head_Some_elem_of, list_elem_of_filter in Hr as [? ?]. eauto.
  - intros (r & -> & Hr).
    assert (r ∈ filter (λ r', observation_date r' = observation_date r) rows) as Hin
      by (by apply list_elem_of_filter).
    destruct (filter _ rows); [by apply elem_of_nil in Hin|]. by eexists.
Qed.

Lemma composite_rows_dates svs :
  observation_date <$> composite_rows svs
  = group_keys (mjoin ((λ sv, observation_date <$> sv_series sv) <$> svs)).
Proof.
  unfold composite_rows. rewrite groupby_sum_dates. f_equal.
  induction svs as [|sv svs IH]; [done|]. csimpl.
  rewrite fmap_app, IH. f_equal. apply weight_rows_dates.
Qed.

Lemma composite_rows_sorted svs : Sorted ts_lt (observation_date <$> composite_rows svs).
Proof. rewrite composite_rows_dates. apply group_keys_sorted. Qed.

Lemma composite_rows_NoDup svs : NoDup (observation_date <$> composite_rows svs).
Proof. apply sorted_lt_NoDup, composite_rows_sorted. Qed.

(** The dates of the composite are the union of the dates of the
    series. *)
Lemma elem_of_composite_dates d svs :
  d ∈ observation_date <$> composite_rows svs ↔
  ∃ sv, sv ∈ svs ∧ d ∈ observation_date <$> sv_series sv.
Proof.
  rewrite composite_rows_dates, elem_of_group_keys, list_elem_of_join. split.
  - intros (l & Hd & Hl). apply list_elem_of_fmap in Hl as (sv & -> & Hsv). eauto.
  - intros (sv & Hsv & Hd). eexists. split; [done|].
    apply list_elem_of_fmap. eauto.
Qed.

Lemma composite_rows_value r svs :
  r ∈ composite_rows svs →
  adjusted_index_value r = vsum (contributions (observation_date r) svs).
Proof.
  unfold composite_rows. rewrite elem_of_groupby_sum. intros [_ ->].
  unfold contributions. by rewrite group_values_mjoin, <-list_fmap_compose.
Qed.

Lemma contributions_one_value d svs :
  Forall (λ sv, one_value_per_date (sv_series sv)) svs →
  contributions d svs = omap (contribution d) svs.
Proof.
  unfold contributions. induction 1 as [|sv svs Hsv _ IH]; [done|]. csimpl.
  rewrite IH. unfold weighted_series, contribution.
  rewrite group_values_weight, (group_values_one_value _ _ Hsv).
  by destruct (value_on d (sv_series sv)).
Qed.

End outputs.

(** ** When the warehouse does not answer *)

Section failures.
Context {V : Type} `{Arith V}.
Implicit Types (w : World V) (acc : Collected).

Lemma process_selections_resolve_fails selection rest acc w :
  online (database w) (connects w) = false →
  process_selections (selection :: rest) acc w
  = (Raise OperationalError, bump_connects w).
Proof.
  intros Hoff. simpl.
  by rewrite (bind_raise _ _ _ _ _ (fetch_series_data_offline _ _ w Hoff)).
Qed.

Lemma process_selections_fetch_fails selection rest acc w first others :
  online (database w) (connects w) = true →
  online (database w) (S (connects w)) = false →
  resolve (database w) selection = first :: others →
  ∃ w', process_selections (selection :: rest) acc w = (Raise OperationalError, w').
Proof.
  intros Hon Hoff Hres. simpl.
  rewrite (bind_ok _ _ _ _ _ (fetch_series_data_run selection w Hon)), Hres.
  eexists. by erewrite bind_raise; [|by apply fetch_timeseries_data_offline].
Qed.

(** The first call that is not answered ends the loop with the error of
    the connection. *)
Lemma process_selections_raises selections acc w k :
  (k < calls (database w) selections)%nat →
  answered k w →
  online (database w) (connects w + k) = false →
  ∃ w', process_selections selections acc w = (Raise OperationalError, w').
Proof.
  revert acc w k. induction selections as [|selection rest IH]; intros acc w k Hk Hup Hoff.
  { unfold calls in Hk. simpl in Hk. lia. }
  destruct k as [|k].
  { rewrite Nat.add_0_r in Hoff. eexists. by apply process_selections_resolve_fails. }
  assert (online (database w) (connects w) = true) as Hon by (apply Hup; lia).
  destruct (resolve (database w) selection) as [|first others] eqn:Hres.
  - rewrite (calls_cons_dropped _ _ _ Hres) in Hk.
    rewrite process_selections_dropped by done.
    apply (IH _ _ k); simpl.
    + lia.
    + intros n Hn. apply Hup. simpl in Hn. lia.
    + by replace (S (connects w + k)) with (connects w + S k)%nat by lia.
  - rewrite (calls_cons_survivor _ _ _ _ _ Hres) in Hk.
    destruct k as [|k].
    { eapply process_selections_fetch_fails; [done| |done].
      by rewrite Nat.add_1_r in Hoff. }
    erewrite process_selections_survivor; [|done|apply Hup; lia|done].
    apply (IH _ _ k); simpl.
    + lia.
    + intros n Hn. apply Hup. simpl in Hn. lia.
    + by replace (S (S (connects w + k))) with (connects w + S (S k))%nat by lia.
Qed.

Lemma process_data_raises selections w k :
  (k < calls (database w) selections)%nat →
  answered k w →
  online (database w) (connects w + k) = false →
  ∃ w', process_data selections w = (Raise OperationalError, w').
Proof.
  intros Hk Hup Hoff.
  destruct (process_selections_raises selections (mkCollected [] [] [] []) w k)
    as [w' Hw']; [done..|].
  exists w'. unfold process_data. by rewrite (bind_raise _ _ _ _ _ Hw').
Qed.

End failures.

(** ** [generate_plot] *)

Section plot.
Context {V : Type}.
Implicit Types (w : World V) (rows : list (Row V)) (fig : Figure V).

Lemma plot_individual_run pairs (rowss : list (list (Row V))) start fig w :
  Forall2 (λ p rows, heap w !! p.1 = Some (Frame rows)) pairs rowss →
  plot_individual pairs start fig w
  = (Ok (mkFigure
           (data fig ++ zip_with (λ p rows, trace_of start p.2 (mkLine "#71869d" 1) rows)
                                 pairs rowss)
           (title fig)),
     set_heap (heap w ++ ((λ rows, Frame (window start rows)) <$> rowss)) w).
Proof.
  intros Hrefs. revert fig w Hrefs.
  induction pairs as [|[r label] pairs IH] in rowss |- *; intros fig w Hrefs.
  - apply Forall2_nil_inv_l in Hrefs as ->. simpl.
    unfold mret, M_ret, set_heap. destruct fig, w. simpl. by rewrite !app_nil_r.
  - apply Forall2_cons_inv_l in Hrefs as (rows & rowss' & Hr & Hrefs & ->).
    simpl in Hr. simpl.
    rewrite (bind_ok _ _ _ _ _ (df_getitem_dates_run _ _ _ Hr)).
    erewrite bind_ok;
      [|apply (df_getitem_mask_run _ rows); [done|]];
      [|by unfold series_ge; rewrite !length_fmap].
    rewrite select_mask_window.
    erewrite bind_ok;
      [|apply df_getitem_dates_run; apply (list_lookup_middle (heap w) []); done].
    erewrite bind_ok;
      [|apply df_getitem_values_run; apply (list_lookup_middle (heap w) []); done].
    rewrite (IH rowss').
    + unfold add_trace, set_heap, trace_of, window. simpl.
      by rewrite <-!app_assoc.
    + eapply Forall2_impl; [exact Hrefs|]. intros p rows' Hp. simpl.
      by apply lookup_app_l_Some.
Qed.

Lemma sub_years_Some t :
  6 ≤ year t ≤ 9999 → sub_years 5 t = Some (five_years_before t).
Proof.
  intros Hyear. unfold sub_years, MINYEAR, MAXYEAR. by rewrite decide_True by lia.
Qed.

Lemma sub_years_None t : year t < 6 → sub_years 5 t = None.
Proof.
  intros Hyear. unfold sub_years, MINYEAR, MAXYEAR. by rewrite decide_False by lia.
Qed.

(** From the year 1683 on, five years earlier is a date of Python's
    calendar, whose years start at 1, and also of the nanosecond
    resolution of pandas, whose dates start in 1677: the start of the
    window exists. *)
Lemma sub_date_offset_run rows w :
  Forall (λ r, 1683 ≤ year (observation_date r) ≤ 9999) rows →
  sub_date_offset 5 (series_max (observation_date <$> rows)) w
  = (Ok (five_years_before <$> series_max (observation_date <$> rows)), w).
Proof.
  intros Hyears. unfold sub_date_offset.
  destruct (series_max (observation_date <$> rows)) as [last|] eqn:Hlast; [|done].
  rewrite sub_years_Some; [done|].
  apply series_max_elem, list_elem_of_fmap in Hlast as (r & -> & Hr).
  rewrite Forall_forall in Hyears. specialize (Hyears r Hr). simpl in Hyears. lia.
Qed.

Lemma generate_plot_run agg pairs_refs labels rows (rowss : list (list (Row V))) start w :
  heap w !! agg = Some (Frame rows) →
  Forall2 (λ p rows', heap w !! p.1 = Some (Frame rows')) (zip pairs_refs labels) rowss →
  sub_date_offset 5 (series_max (observation_date <$> rows)) w = (Ok start, w) →
  generate_plot agg pairs_refs labels w
  = (Ok (mkFigure
           (trace_of start "Composite Index" (mkLine "#093D44" 5) rows
            :: zip_with (λ p rows', trace_of start p.2 (mkLine "#71869d" 1) rows')
                        (zip pairs_refs labels) rowss)
           (Some "Composite Index and Individual Indices - Last 5 Years")),
     set_heap (heap w ++ Frame (window start rows)
                         :: ((λ rows', Frame (window start rows')) <$> rowss)) w).
Proof.
  intros Hagg Hrefs Hstart. unfold generate_plot.
  rewrite (bind_ok _ _ _ _ _ (df_getitem_dates_run _ _ _ Hagg)).
  rewrite (bind_ok _ _ _ _ _ Hstart).
  rewrite (bind_ok _ _ _ _ _ (df_getitem_dates_run _ _ _ Hagg)).
  erewrite bind_ok;
    [|apply (df_getitem_mask_run _ rows); [done|]];
    [|by unfold series_ge; rewrite !length_fmap].
  rewrite select_mask_window.
  erewrite bind_ok;
    [|apply df_getitem_dates_run; apply (list_lookup_middle (heap w) []); done].
  erewrite bind_ok;
    [|apply df_getitem_values_run; apply (list_lookup_middle (heap w) []); done].
  erewrite bind_ok; [|apply (plot_individual_run _ rowss)].
  - unfold mret, M_ret, update_layout, add_trace, set_heap, trace_of, window. simpl.
    by rewrite <-!app_assoc.
  - eapply Forall2_impl; [exact Hrefs|]. intros p rows' Hp. simpl.
    by apply lookup_app_l_Some.
Qed.

(** On [pd.DataFrame()] the very first column access fails. *)
Lemma generate_plot_no_columns agg individual labels w :
  heap w !! agg = Some NoColumns →
  generate_plot agg individual labels w = (Raise (KeyError "observation_date"), w).
Proof.
  intros Hagg. unfold generate_plot.
  by rewrite (bind_raise _ _ _ _ _ (df_getitem_dates_no_columns _ _ Hagg)).
Qed.

End plot.

(** ** The survivors and the selections they come from *)

Section survivor_facts.
Context {V : Type} `{HA : Arith V}.
Implicit Types (db : Database V) (w : World V) (selections : list (Selection V)).

Lemma survivor_Some db selection sv :
  survivor db selection = Some sv →
  sv_selection sv = selection ∧
  head (resolve db selection) = Some (sv_series_id sv) ∧
  sv_series sv = time_series db (sv_series_id sv).
Proof.
  unfold survivor. destruct (resolve db selection) as [|first others]; [done|].
  by intros [= <-].
Qed.

Lemma elem_of_survivors db selections sv :
  sv ∈ survivors db selections →
  sv_selection sv ∈ selections ∧
  head (resolve db (sv_selection sv)) = Some (sv_series_id sv) ∧
  sv_series sv = time_series db (sv_series_id sv).
Proof.
  unfold survivors. rewrite list_elem_of_omap. intros (s & Hs & Hsv).
  apply survivor_Some in Hsv as (<- & ? & ?). done.
Qed.

Lemma survivors_none db selections :
  Forall (λ s, resolve db s = []) selections → survivors db selections = [].
Proof.
  induction 1 as [|s selections Hs _ IH]; [done|].
  by rewrite (survivors_cons_dropped _ _ _ Hs).
Qed.

Lemma survivors_app db selections1 selections2 :
  survivors db (selections1 ++ selections2)
  = survivors db selections1 ++ survivors db selections2.
Proof. apply omap_app. Qed.

(** The survivors are the selections that resolve, in the order of the
    input. *)
Lemma survivors_selections db selections :
  sv_selection <$> survivors db selections
  = filter (λ s, resolve db s ≠ []) selections.
Proof.
  induction selections as [|s selections IH]; [done|].
  rewrite filter_cons. destruct (resolve db s) as [|first others] eqn:Hres.
  - rewrite (survivors_cons_dropped _ _ _ Hres). by rewrite decide_False by auto.
  - rewrite (survivors_cons_survivor _ _ _ _ _ Hres). rewrite decide_True by done.
    csimpl. by rewrite IH.
Qed.

Lemma survivors_series_ids db selections :
  sv_series_id <$> survivors db selections
  = omap (λ s, head (resolve db s)) selections.
Proof.
  induction selections as [|s selections IH]; [done|].
  destruct (resolve db s) as [|first others] eqn:Hres.
  - rewrite (survivors_cons_dropped _ _ _ Hres). csimpl. by rewrite Hres.
  - rewrite (survivors_cons_survivor _ _ _ _ _ Hres). csimpl. rewrite Hres. csimpl.
    by rewrite IH.
Qed.

Lemma fetched_selection_queries db selections :
  fetched (mjoin (selection_queries db <$> selections))
  = omap (λ s, head (resolve db s)) selections.
Proof.
  unfold fetched. induction selections as [|s selections IH]; [done|]. csimpl.
  rewrite omap_app, IH. unfold selection_queries.
  by destruct (resolve db s).
Qed.

End survivor_facts.

(** ** Sums of contributions *)

Section contribution_facts.
Context {V : Type} `{HA : Arith V} `{!ExactArith V}.
Implicit Types (w : World V) (rows : list (Row V)) (svs : list (Survivor V))
  (d : Timestamp).

#[global] Instance one_value_per_date_dec (rows : list (Row V)) :
  Decision (one_value_per_date rows).
Proof. unfold one_value_per_date. apply _. Defined.

Lemma vsum_omap_default {A} (f : A → option V) (l : list A) :
  vsum (omap f l) = vsum ((λ a, default vzero (f a)) <$> l).
Proof.
  induction l as [|a l IH]; [done|]. csimpl.
  destruct (f a) as [v|]; simpl; rewrite !vsum_cons, IH; [done|].
  by rewrite vadd_zero_l.
Qed.

Lemma contributions_app d svs1 svs2 :
  contributions d (svs1 ++ svs2) = contributions d svs1 ++ contributions d svs2.
Proof. unfold contributions. by rewrite fmap_app, join_app. Qed.

Lemma contributions_cons d (sv : Survivor V) svs :
  contributions d (sv :: svs) = group_values d (weighted_series sv) ++ contributions d svs.
Proof. done. Qed.

Lemma group_values_absent d (rows : list (Row V)) :
  d ∉ observation_date <$> rows → group_values d rows = [].
Proof.
  intros Hd. unfold group_values.
  assert (filter (λ r, observation_date r = d) rows = []) as ->; [|done].
  apply elem_of_nil_inv. intros r Hr. apply list_elem_of_filter in Hr as [<- Hr].
  by apply Hd, list_elem_of_fmap_2.
Qed.

Lemma contributions_absent d svs :
  (∀ sv, sv ∈ svs → d ∉ observation_date <$> sv_series sv) → contributions d svs = [].
Proof.
  induction svs as [|sv svs IH]; intros Habs; [done|].
  rewrite contributions_cons, IH by (intros sv' ?; apply Habs; by right).
  rewrite app_nil_r. apply group_values_absent.
  unfold weighted_series. rewrite weight_rows_dates. apply Habs. left.
Qed.

Lemma weighted_series_zero (sv : Survivor V) r :
  weight_percent (sv_selection sv) = vzero →
  r ∈ weighted_series sv → adjusted_index_value r = vzero.
Proof.
  intros Hzero. unfold weighted_series, weight_rows. rewrite Hzero.
  intros (r0 & -> & _)%list_elem_of_fmap. simpl. apply vmul_zero_weight.
Qed.

(** *** The order of the rows does not matter *)

Lemma group_keys_perm (dates1 dates2 : list Timestamp) :
  dates1 ≡ₚ dates2 → group_keys dates1 = group_keys dates2.
Proof.
  intros Hperm. apply sorted_lt_unique; [apply group_keys_sorted..|].
  intros d. by rewrite !elem_of_group_keys, Hperm.
Qed.

Lemma groupby_sum_perm rows1 rows2 :
  rows1 ≡ₚ rows2 → groupby_sum rows1 = groupby_sum rows2.
Proof.
  intros Hperm. unfold groupby_sum.
  rewrite (group_keys_perm (observation_date <$> rows1) (observation_date <$> rows2))
    by (by rewrite Hperm).
  apply list_fmap_ext. intros _ d _. f_equal.
  by apply vsum_perm, group_values_perm.
Qed.

Lemma rows_at_frames w rs :
  Forall (λ r, ∃ rows, heap w !! r = Some (Frame rows)) rs →
  Forall2 (λ r rows, heap w !! r = Some (Frame rows)) rs (rows_at w <$> rs).
Proof.
  intros Hrs. apply Forall2_fmap_r, Forall_Forall2_diag.
  eapply Forall_impl; [exact Hrs|]. intros r [rows Hr]. simpl. unfold rows_at. by rewrite Hr.
Qed.

End contribution_facts.

(** ** The plot after a run without survivor, and the window *)

Section plot_facts.
Context {V : Type} `{HA : Arith V}.
Implicit Types (w : World V) (rows : list (Row V)).

Lemma elem_of_window (start : option Timestamp) rows r :
  r ∈ window start rows ↔
  r ∈ rows ∧ ∃ s, start = Some s ∧ ts_le s (observation_date r).
Proof.
  unfold window. rewrite !list_elem_of_In, filter_In. unfold in_window, ts_le.
  destruct start as [s|]; split.
  - intros [? ?]; eauto.
  - intros [? (s0 & [= <-] & ?)]; auto.
  - by intros [_ [=]].
  - by intros [_ (s & [=] & _)].
Qed.

Lemma window_Some (s : Timestamp) rows :
  window (Some s) rows = filter (λ r, ts_le s (observation_date r)) rows.
Proof.
  unfold window. induction rows as [|r rows IH]; [done|].
  rewrite filter_cons. simpl. rewrite IH.
  destruct (decide (ts_le s (observation_date r))) as [Hle|Hle].
  - unfold ts_le in Hle. by rewrite Hle.
  - unfold ts_le in Hle. by destruct (ts_leb s (observation_date r)).
Qed.

(** The last date of a column is its greatest element. *)
Lemma series_max_unique (dates : list Timestamp) last :
  last ∈ dates → (∀ d, d ∈ dates → ts_le d last) → series_max dates = Some last.
Proof.
  intros Hlast Hmax.
  destruct (series_max dates) as [m|] eqn:Hm.
  - f_equal. apply ts_leb_antisym.
    + apply Hmax. by eapply series_max_elem.
    + by eapply (series_max_ge dates).
  - destruct dates; [by apply elem_of_nil in Hlast|done].
Qed.

(** When no selection survives, [generate_plot] is handed the
    [pd.DataFrame()] that [process_data] built, and raises [KeyError] on
    its first line: the frame has no column [observation_date]. *)
Lemma generate_plot_after_no_survivor (selections : list (Selection V)) w :
  reachable selections w →
  Forall (λ s, resolve (database w) s = []) selections →
  ∃ out w',
    process_data selections w = (Ok out, w') ∧
    generate_plot (aggregated_index out) (individual_indexes out) (index_categories out) w'
    = (Raise (KeyError "observation_date"), w').
Proof.
  intros Hw Hnone. apply survivors_none in Hnone.
  exists (final_result selections w), (final_world selections w).
  split; [by apply process_data_ok|].
  apply generate_plot_no_columns. by rewrite final_world_aggregated, Hnone.
Qed.

End plot_facts.

(** ** The scenario, run *)

Module ScenarioFacts.
Import Scenario.

Lemma start_reachable sels : reachable sels start.
Proof. by intros n _. Qed.

(** Composite: 6 + 8 = 14 in January, 7.2 + 8.8 = 16 in February. *)
Example end_to_end :
  ∃ out w',
    process_data selections start = (Ok out, w') ∧
    table (heap w' !! aggregated_index out) = Some [(jan, 14%Q); (feb, 16%Q)] ∧
    table <$> ((heap w' !!.) <$> individual_indexes out)
      = [Some [(jan, 10%Q); (feb, 12%Q)]; Some [(jan, 20%Q); (feb, 22%Q)]] ∧
    index_categories out = ["Steel"; "Oil"] ∧
    index_ids out = ["WPU1017"; "WPU0561"].
Proof. do 2 eexists. split; [by vm_compute|]. by vm_compute. Qed.

(** Dates that only one series has keep the value of that series. *)
Example zero_fill :
  ∃ out w',
    process_data staggered_selections (mkWorld staggered_warehouse [] 0 []) = (Ok out, w') ∧
    table (heap w' !! aggregated_index out)
    = Some [(mkTimestamp 2020 1 1, 3%Q); (mkTimestamp 2020 2 1, 12%Q); (mar, 11%Q)].
Proof. do 2 eexists. split; by vm_compute. Qed.

Lemma copper_run :
  process_data [copper] start
  = (Ok (mkProcessed 0%nat [] [] []),
     mkWorld warehouse [NoColumns] 1%nat [SeriesDetailsQuery "Metals" (Some "Copper")]).
Proof. by vm_compute. Qed.

End ScenarioFacts.

(** * The claims *)

Section claims.
Context {V : Type} `{HA : Arith V}.
Implicit Types (w : World V) (selections : list (Selection V))
  (rows : list (Row V)) (svs : list (Survivor V)) (d : Timestamp).

(** C1.  When at least one selection survives, the composite that
    [process_data] returns has exactly one row per date of the union of
    the dates of the surviving series, and its value on a date is the sum
    of the weighted values that fall on that date, series after series.
    With one value per date in each series, as the data model has it,
    that is the sum, over the series that have a row on the date, of the
    value of the series there times [weight_percent / 100]; in exact
    arithmetic it is as well the sum over all the series, one without a
    row on the date counting for 0. *)
Theorem composite_is_weighted_sum selections w :
  let svs := survivors (database w) selections in
  reachable selections w →
  svs ≠ [] →
  ∃ out w' rows,
    process_data selections w = (Ok out, w') ∧
    heap w' !! aggregated_index out = Some (Frame rows) ∧
    NoDup (observation_date <$> rows) ∧
    (∀ d, d ∈ observation_date <$> rows ↔
          ∃ sv, sv ∈ svs ∧ d ∈ observation_date <$> sv_series sv) ∧
    (∀ r, r ∈ rows →
          adjusted_index_value r = vsum (contributions (observation_date r) svs)) ∧
    (Forall (λ sv, one_value_per_date (sv_series sv)) svs →
     ∀ r, r ∈ rows →
          adjusted_index_value r = vsum (omap (contribution (observation_date r)) svs)) ∧
    (Forall (λ sv, one_value_per_date (sv_series sv)) svs →
     ExactArith V →
     ∀ r, r ∈ rows →
          adjusted_index_value r
          = vsum ((λ sv, default vzero (contribution (observation_date r) sv)) <$> svs)).
Proof.
  intros svs Hw Hne.
  exists (final_result selections w), (final_world selections w), (composite_rows svs).
  split; [by apply process_data_ok|].
  split; [rewrite final_world_aggregated; fold svs; by destruct svs|].
  split; [apply composite_rows_NoDup|].
  split; [intros d; apply elem_of_composite_dates|].
  split; [intros r Hr; apply (composite_rows_value _ _ Hr)|].
  split.
  - intros Hone r Hr.
    by rewrite (composite_rows_value _ _ Hr), contributions_one_value.
  - intros Hone Hexact r Hr.
    rewrite (composite_rows_value _ _ Hr), contributions_one_value by done.
    apply vsum_omap_default.
Qed.

(** C2.  With no selection, or when every selection resolves to no
    identifier, [process_data] returns normally: the composite is the
    empty [pd.DataFrame()] and the three lists are empty. *)
Theorem no_survivor_empty_outputs selections w :
  reachable selections w →
  Forall (λ s, resolve (database w) s = []) selections →
  ∃ a w',
    process_data selections w = (Ok (mkProcessed a [] [] []), w') ∧
    heap w' !! a = Some NoColumns.
Proof.
  intros Hw Hnone. apply survivors_none in Hnone.
  exists (aggregated_index (final_result selections w)), (final_world selections w).
  split.
  - rewrite process_data_ok by done. unfold final_result. by rewrite Hnone.
  - by rewrite final_world_aggregated, Hnone.
Qed.

(** C3.  Of the identifiers a selection resolves to, only the first one
    is used: [fetch_timeseries_data] asks for it whatever comes after it
    in the list; the queries [process_data] sends for time series are
    exactly one per resolving selection, for its first identifier; these
    identifiers are the ones returned, and the individual frames hold
    their series. *)
Theorem first_identifier_only selections w :
  reachable selections w →
  (∀ first others w0,
     @fetch_timeseries_data V (first :: others) w0 = fetch_timeseries_data [first] w0) ∧
  ∃ out w' qs,
    process_data selections w = (Ok out, w') ∧
    queries w' = queries w ++ qs ∧
    fetched qs = omap (λ s, head (resolve (database w) s)) selections ∧
    (∀ sid, sid ∈ fetched qs →
            ∃ s, s ∈ selections ∧ head (resolve (database w) s) = Some sid) ∧
    index_ids out = omap (λ s, head (resolve (database w) s)) selections ∧
    Forall2 (λ r sid, ∃ rows, heap w' !! r = Some (Frame rows) ∧
                              rows ≡ₚ time_series (database w) sid)
            (individual_indexes out) (index_ids out).
Proof.
  intros Hw. split; [done|].
  exists (final_result selections w), (final_world selections w),
    (mjoin (selection_queries (database w) <$> selections)).
  split; [by apply process_data_ok|]. split; [done|].
  split; [apply fetched_selection_queries|]. split.
  { intros sid. by rewrite fetched_selection_queries, list_elem_of_omap. }
  split; [apply survivors_series_ids|].
  unfold final_result at 2. cbn [index_ids]. apply Forall2_fmap_r.
  pose proof (final_world_individual selections w) as Hind.
  apply Forall2_same_length_lookup. split; [by eapply Forall2_length|].
  intros i r sv Hr Hsv.
  pose proof (Forall2_lookup_lr _ _ _ _ _ _ Hind Hr Hsv) as Hheap. simpl in Hheap.
  apply list_elem_of_lookup_2, elem_of_survivors in Hsv as (_ & _ & Hseries).
  eexists. split; [done|]. rewrite <-Hseries. apply sort_rows_perm.
Qed.

(** C4.  A selection that resolves to no identifier leaves no trace in
    the outputs: with it or without it in the list, [process_data]
    returns the same four outputs, normally, over the same store. *)
Theorem unresolved_selection_dropped before selection after w :
  reachable (before ++ selection :: after) w →
  resolve (database w) selection = [] →
  ∃ out w1 w2,
    process_data (before ++ selection :: after) w = (Ok out, w1) ∧
    process_data (before ++ after) w = (Ok out, w2) ∧
    heap w1 = heap w2.
Proof.
  intros Hw Hres.
  assert (survivors (database w) (before ++ selection :: after)
          = survivors (database w) (before ++ after)) as Hsvs.
  { by rewrite !survivors_app, (survivors_cons_dropped _ _ _ Hres). }
  assert (reachable (before ++ after) w) as Hw'.
  { intros n Hn. apply Hw. unfold calls in *. rewrite Hsvs.
    rewrite !length_app in *. simpl. lia. }
  exists (final_result (before ++ selection :: after) w),
    (final_world (before ++ selection :: after) w), (final_world (before ++ after) w).
  split; [by apply process_data_ok|]. split.
  - rewrite process_data_ok by done. unfold final_result. by rewrite Hsvs.
  - unfold final_world. cbn [heap]. by rewrite Hsvs.
Qed.

(** C6.  For a composite whose dates leave room for five years (years
    1683 to 9999), the plot shows exactly the rows from five calendar
    years before the last date of the composite onwards: the same month
    and day five years earlier, 28 February for a 29 February that the
    earlier year does not have.  That holds for the composite and for
    every individual frame, and the frames the plot is given stay as they
    are in the store. *)
Theorem window_keeps_recent_rows agg individual labels rows w :
  heap w !! agg = Some (Frame rows) →
  Forall (λ r, ∃ rows', heap w !! r = Some (Frame rows')) individual →
  Forall (λ r, 1683 ≤ year (observation_date r) ≤ 9999) rows →
  ∃ fig w',
    generate_plot agg individual labels w = (Ok fig, w') ∧
    (rows ≠ [] →
     ∃ last, last ∈ observation_date <$> rows ∧
             ∀ d, d ∈ observation_date <$> rows → ts_le d last) ∧
    (∀ last,
       last ∈ observation_date <$> rows →
       (∀ d, d ∈ observation_date <$> rows → ts_le d last) →
       let start_date :=
         mkTimestamp (year last - 5) (month last)
                     (Z.min (day last) (days_in_month (year last - 5) (month last))) in
       let kept (rows' : list (Row V)) :=
         filter (λ r, ts_le start_date (observation_date r)) rows' in
       (∃ t, data fig !! 0%nat = Some t ∧
             x t = observation_date <$> kept rows ∧
             y t = adjusted_index_value <$> kept rows) ∧
       (∀ i r label rows',
          individual !! i = Some r → labels !! i = Some label →
          heap w !! r = Some (Frame rows') →
          ∃ t, data fig !! S i = Some t ∧ name t = label ∧
               x t = observation_date <$> kept rows' ∧
               y t = adjusted_index_value <$> kept rows')) ∧
    (∀ r df, heap w !! r = Some df → heap w' !! r = Some df).
Proof.
  intros Hagg Hind Hyears.
  set (rowss := (λ p : ref * string, rows_at w p.1) <$> zip individual labels).
  assert (Forall2 (λ p rows', heap w !! p.1 = Some (Frame rows'))
            (zip individual labels) rowss) as Hrefs.
  { apply Forall2_fmap_r, Forall_Forall2_diag, Forall_forall.
    intros [r label] Hin. simpl. apply elem_of_zip_l in Hin.
    rewrite Forall_forall in Hind. destruct (Hind r Hin) as [rows' Hr].
    unfold rows_at. by rewrite Hr. }
  do 2 eexists.
  split; [exact (generate_plot_run agg individual labels rows rowss _ w Hagg Hrefs
                   (sub_date_offset_run rows w Hyears))|].
  split; [|split].
  - intros Hne. destruct (series_max (observation_date <$> rows)) as [last|] eqn:Hlast;
      [|by destruct rows].
    exists last. eauto using series_max_elem, series_max_ge.
  - intros last Hlast Hmax start_date kept.
    rewrite (series_max_unique _ _ Hlast Hmax). cbn [fmap option_fmap option_map].
    change (five_years_before last) with start_date. split.
    + eexists. split; [done|]. cbn [x y trace_of]. by rewrite window_Some.
    + intros i r label rows' Hr Hlabel Hheap. cbn [data].
      change ((?t :: ?l) !! S i) with (l !! i).
      rewrite lookup_zip_with. unfold rowss. rewrite list_lookup_fmap.
      assert (zip individual labels !! i = Some (r, label)) as ->
        by (by apply lookup_zip_Some).
      simpl. unfold rows_at. rewrite Hheap. simpl. eexists. split; [done|].
      split; [done|]. cbn [x y trace_of]. by rewrite window_Some.
  - intros r df Hr. cbn [heap set_heap]. by apply lookup_app_l_Some.
Qed.

(** C7, as the code has it.  Run on a list of weighted frames and on
    any permutation of it, the aggregation returns composites with the
    same dates; on each date the two values are sums of the same weighted
    values, each added up in the order in which its list gives them.  The
    two composites are therefore the same frame when the addition of the
    values is exact; in binary64 the order of the additions shows in the
    result. *)
Theorem aggregate_order_independent rs rs' w :
  Forall (λ r, ∃ rows, heap w !! r = Some (Frame rows)) rs →
  rs ≡ₚ rs' →
  ∃ a a' w1 w1' df df',
    aggregate rs w = (Ok a, w1) ∧
    aggregate rs' w = (Ok a', w1') ∧
    heap w1 !! a = Some df ∧
    heap w1' !! a' = Some df' ∧
    observation_date <$> frame_rows df = observation_date <$> frame_rows df' ∧
    (∀ r, r ∈ frame_rows df →
       let values := group_values (observation_date r) (mjoin (rows_at w <$> rs)) in
       let values' := group_values (observation_date r) (mjoin (rows_at w <$> rs')) in
       values ≡ₚ values' ∧
       adjusted_index_value r = vsum values ∧
       ∃ r', r' ∈ frame_rows df' ∧
             observation_date r' = observation_date r ∧
             adjusted_index_value r' = vsum values') ∧
    (ExactArith V → df = df').
Proof.
  intros Hrs Hperm.
  destruct (decide (rs = [])) as [->|Hne].
  { apply Permutation_nil_l in Hperm. subst rs'.
    exists (length (heap w)), (length (heap w)), (set_heap (heap w ++ [NoColumns]) w),
      (set_heap (heap w ++ [NoColumns]) w), NoColumns, NoColumns.
    do 2 (split; [done|]).
    do 2 (split; [apply (list_lookup_middle (heap w) []); done|]).
    split; [done|]. split; [|done]. intros r Hr. by apply elem_of_nil in Hr. }
  assert (rs' ≠ []) as Hne'.
  { intros ->. by apply Permutation_nil_r in Hperm. }
  assert (Forall (λ r, ∃ rows, heap w !! r = Some (Frame rows)) rs') as Hrs'
    by (by rewrite <-Hperm).
  pose proof (aggregate_run rs _ w Hne (rows_at_frames w rs Hrs)) as Hrun.
  pose proof (aggregate_run rs' _ w Hne' (rows_at_frames w rs' Hrs')) as Hrun'.
  assert (mjoin (rows_at w <$> rs) ≡ₚ mjoin (rows_at w <$> rs')) as Hrows
    by (by rewrite Hperm).
  do 4 eexists.
  exists (Frame (groupby_sum (mjoin (rows_at w <$> rs)))),
    (Frame (groupby_sum (mjoin (rows_at w <$> rs')))).
  split; [exact Hrun|]. split; [exact Hrun'|]. cbn [heap set_heap].
  rewrite !lookup_app_r, Nat.add_sub' by lia. do 2 (split; [done|]).
  split; [|split].
  - cbn [frame_rows]. rewrite !groupby_sum_dates. apply group_keys_perm. by rewrite Hrows.
  - cbn [frame_rows]. intros r Hr.
    apply elem_of_groupby_sum in Hr as [Hd Hv].
    split; [by apply group_values_perm|]. split; [done|].
    exists (mkRow (observation_date r)
              (vsum (group_values (observation_date r) (mjoin (rows_at w <$> rs'))))).
    split; [|done].
    apply elem_of_groupby_sum. split; [|done]. simpl. by rewrite <-Hrows.
  - intros Hexact. f_equal. by apply groupby_sum_perm.
Qed.

(** C8.  The individual frames, the labels and the identifiers that
    [process_data] returns are as many as the survivors, which are the
    resolving selections in input order; entry [i] of each list belongs
    to survivor [i]: its [category_3], the first identifier it resolved
    to, and the unweighted series of that identifier in ascending order of
    date. *)
Theorem outputs_parallel selections w :
  reachable selections w →
  ∃ out w',
    process_data selections w = (Ok out, w') ∧
    let svs := survivors (database w) selections in
    sv_selection <$> svs = filter (λ s, resolve (database w) s ≠ []) selections ∧
    length (individual_indexes out) = length svs ∧
    length (index_categories out) = length svs ∧
    length (index_ids out) = length svs ∧
    ∀ i sv, svs !! i = Some sv →
      index_categories out !! i = Some (category_3 (sv_selection sv)) ∧
      index_ids out !! i = Some (sv_series_id sv) ∧
      head (resolve (database w) (sv_selection sv)) = Some (sv_series_id sv) ∧
      ∃ r rows,
        individual_indexes out !! i = Some r ∧
        heap w' !! r = Some (Frame rows) ∧
        rows ≡ₚ time_series (database w) (sv_series_id sv) ∧
        Sorted rows_le rows.
Proof.
  intros Hw. exists (final_result selections w), (final_world selections w).
  split; [by apply process_data_ok|]. intros svs.
  split; [apply survivors_selections|].
  unfold final_result. cbn [individual_indexes index_categories index_ids].
  fold svs. rewrite length_survivor_refs, !length_fmap. do 3 (split; [done|]).
  intros i sv Hsv. rewrite !list_lookup_fmap, Hsv. do 2 (split; [done|]).
  pose proof (list_elem_of_lookup_2 _ _ _ Hsv) as Hin.
  apply elem_of_survivors in Hin as (_ & Hhead & Hseries). split; [done|].
  destruct (Forall2_lookup_r _ _ _ _ _ (final_world_individual selections w) Hsv)
    as (r & Hr & Hheap).
  exists r, (sort_rows (sv_series sv)). split; [done|]. split; [done|].
  split; [rewrite <-Hseries; apply sort_rows_perm|apply sort_rows_sorted].
Qed.

(** C9, as the code has it.  A call to the warehouse that fails is not
    absorbed: whichever call of the run it is, [process_data] stops there
    and raises the error of the connection. *)
Theorem failed_call_propagates (selections : list (Selection V)) w k :
  (k < calls (database w) selections)%nat →
  answered k w →
  online (database w) (connects w + k) = false →
  ∃ w', process_data selections w = (Raise OperationalError, w') ∧
        ∀ out w'', process_data selections w ≠ (Ok out, w'').
Proof.
  intros Hk Hup Hoff.
  destruct (process_data_raises selections w k Hk Hup Hoff) as [w' Hw'].
  exists w'. split; [done|]. intros out w''. by rewrite Hw'.
Qed.

(** C10.  A survivor whose weight is 0 stays in the outputs: it keeps
    its place in the individual frames, the labels and the identifiers;
    each of its weighted values is 0; every date of its series is a date
    of the composite; and the value of the composite on a date is the sum
    of what the other survivors contribute there, hence 0 where none of
    them has a row (exact arithmetic). *)
Theorem zero_weight_survivor_kept `{!ExactArith V} selections w i sv :
  let svs := survivors (database w) selections in
  reachable selections w →
  svs !! i = Some sv →
  weight_percent (sv_selection sv) = vzero →
  ∃ out w' rows,
    process_data selections w = (Ok out, w') ∧
    heap w' !! aggregated_index out = Some (Frame rows) ∧
    index_categories out !! i = Some (category_3 (sv_selection sv)) ∧
    index_ids out !! i = Some (sv_series_id sv) ∧
    (∃ r rs, individual_indexes out !! i = Some r ∧
             heap w' !! r = Some (Frame rs) ∧ rs ≡ₚ sv_series sv) ∧
    (∀ r, r ∈ weighted_series sv → adjusted_index_value r = vzero) ∧
    (∀ d, d ∈ observation_date <$> sv_series sv → d ∈ observation_date <$> rows) ∧
    (∀ r, r ∈ rows →
          adjusted_index_value r = vsum (contributions (observation_date r) (delete i svs))) ∧
    (∀ r, r ∈ rows →
          (∀ sv', sv' ∈ delete i svs →
                  observation_date r ∉ observation_date <$> sv_series sv') →
          adjusted_index_value r = vzero).
Proof.
  intros svs Hw Hsv Hzero.
  exists (final_result selections w), (final_world selections w), (composite_rows svs).
  split; [by apply process_data_ok|].
  split.
  { rewrite final_world_aggregated. fold svs. by destruct svs. }
  unfold final_result. cbn [individual_indexes index_categories index_ids]. fold svs.
  rewrite !list_lookup_fmap, Hsv. do 2 (split; [done|]).
  split.
  { destruct (Forall2_lookup_r _ _ _ _ _ (final_world_individual selections w) Hsv)
      as (r & Hr & Hheap).
    exists r, (sort_rows (sv_series sv)). split; [done|]. split; [done|].
    apply sort_rows_perm. }
  split; [intros r; by apply weighted_series_zero|].
  split.
  { intros d Hd. apply elem_of_composite_dates. exists sv. split; [|done].
    by eapply list_elem_of_lookup_2. }
  assert (∀ r, r ∈ composite_rows svs →
            adjusted_index_value r
            = vsum (contributions (observation_date r) (delete i svs))) as Hothers.
  { intros r Hr. rewrite (composite_rows_value _ _ Hr).
    rewrite <-(take_drop_middle svs i sv Hsv) at 1.
    rewrite contributions_app, contributions_cons, delete_take_drop, contributions_app.
    apply vsum_skip_zeros, Forall_forall. intros v Hv.
    unfold group_values in Hv. apply list_elem_of_fmap in Hv as (r0 & -> & Hr0).
    apply list_elem_of_filter in Hr0 as [_ Hr0]. by apply (weighted_series_zero sv). }
  split; [done|].
  intros r Hr Habs. by rewrite (Hothers r Hr), contributions_absent.
Qed.

End claims.

(** ** The claims on the scenario *)

Lemma composite_is_weighted_sum_witness :
  let svs := survivors Scenario.warehouse Scenario.selections in
  svs ≠ [] ∧
  Forall (λ sv, one_value_per_date (sv_series sv)) svs ∧
  ∃ out w' rows,
    process_data Scenario.selections Scenario.start = (Ok out, w') ∧
    heap w' !! aggregated_index out = Some (Frame rows) ∧
    NoDup (observation_date <$> rows) ∧
    (∀ d, d ∈ observation_date <$> rows ↔
          ∃ sv, sv ∈ svs ∧ d ∈ observation_date <$> sv_series sv) ∧
    (∀ r, r ∈ rows →
          adjusted_index_value r = vsum (omap (contribution (observation_date r)) svs)) ∧
    (∀ r, r ∈ rows →
          adjusted_index_value r
          = vsum ((λ sv, default vzero (contribution (observation_date r) sv)) <$> svs)).
Proof.
  intros svs.
  assert (svs ≠ []) as Hne by (by vm_compute).
  assert (Forall (λ sv, one_value_per_date (sv_series sv)) svs) as Hone by compute_done.
  split; [done|]. split; [done|].
  destruct (composite_is_weighted_sum Scenario.selections Scenario.start)
    as (out & w' & rows & Hrun & Hagg & Hnd & Hdates & _ & Hvalues & Hfill).
  - apply ScenarioFacts.start_reachable.
  - exact Hne.
  - exists out, w', rows. do 4 (split; [done|]).
    split; [by apply Hvalues|by apply Hfill, Qc_ExactArith].
Defined.

Lemma no_survivor_empty_outputs_witness :
  Forall (λ s, resolve (database Scenario.start) s = []) [Scenario.copper] ∧
  ∃ a w',
    process_data [Scenario.copper] Scenario.start = (Ok (mkProcessed a [] [] []), w') ∧
    heap w' !! a = Some NoColumns.
Proof.
  split; [compute_done|].
  apply (no_survivor_empty_outputs [Scenario.copper] Scenario.start).
  - apply ScenarioFacts.start_reachable.
  - compute_done.
Defined.

Lemma first_identifier_only_witness :
  resolve Scenario.warehouse Scenario.steel = ["WPU1017"; "WPU101707"] ∧
  ∃ out w' qs,
    process_data Scenario.selections Scenario.start = (Ok out, w') ∧
    queries w' = queries Scenario.start ++ qs ∧
    fetched qs = ["WPU1017"; "WPU0561"] ∧
    index_ids out = ["WPU1017"; "WPU0561"].
Proof.
  split; [by vm_compute|].
  destruct (first_identifier_only Scenario.selections Scenario.start)
    as (_ & out & w' & qs & Hrun & Hqs & Hfetched & _ & Hids & _).
  - apply ScenarioFacts.start_reachable.
  - by exists out, w', qs.
Defined.

Lemma unresolved_selection_dropped_witness :
  resolve (database Scenario.start) Scenario.copper = [] ∧
  ∃ out w1 w2,
    process_data ([Scenario.steel] ++ Scenario.copper :: [Scenario.oil]) Scenario.start
      = (Ok out, w1) ∧
    process_data ([Scenario.steel] ++ [Scenario.oil]) Scenario.start = (Ok out, w2) ∧
    heap w1 = heap w2.
Proof.
  split; [by vm_compute|].
  apply (unresolved_selection_dropped [Scenario.steel] Scenario.copper [Scenario.oil]).
  - apply ScenarioFacts.start_reachable.
  - by vm_compute.
Defined.

(** C5.  One selection, for a pair of categories without series: the
    composite is [pd.DataFrame()], and [generate_plot] called on the
    outputs, as [run] does, raises [KeyError: 'observation_date']. *)
Theorem generate_plot_raises_on_empty_composite :
  ∃ out w',
    process_data [Scenario.copper] Scenario.start = (Ok out, w') ∧
    heap w' !! aggregated_index out = Some NoColumns ∧
    individual_indexes out = [] ∧
    generate_plot (aggregated_index out) (individual_indexes out) (index_categories out) w'
    = (Raise (KeyError "observation_date"), w').
Proof.
  destruct (generate_plot_after_no_survivor [Scenario.copper] Scenario.start)
    as (out & w' & Hrun & Hplot).
  - apply ScenarioFacts.start_reachable.
  - compute_done.
  - exists out, w'. split; [done|]. split; [|split; [|done]].
    + rewrite ScenarioFacts.copper_run in Hrun. by injection Hrun as <- <-.
    + rewrite ScenarioFacts.copper_run in Hrun. by injection Hrun as <- <-.
Qed.

Lemma window_keeps_recent_rows_witness :
  ∃ rows fig w' t0 t1,
    heap Plots.decade !! 0%nat = Some (Frame rows) ∧
    Forall (λ r, ∃ rows', heap Plots.decade !! r = Some (Frame rows')) [1%nat] ∧
    Forall (λ r, 1683 ≤ year (observation_date r) ≤ 9999) rows ∧
    generate_plot 0%nat [1%nat] ["Steel"] Plots.decade = (Ok fig, w') ∧
    data fig !! 0%nat = Some t0 ∧
    x t0 = [mkTimestamp 2019 2 28; mkTimestamp 2021 6 1; mkTimestamp 2024 2 29] ∧
    data fig !! 1%nat = Some t1 ∧
    x t1 = [mkTimestamp 2019 2 28; mkTimestamp 2023 5 1] ∧
    (∀ r df, heap Plots.decade !! r = Some df → heap w' !! r = Some df).
Proof.
  assert (Forall (λ r, ∃ rows', heap Plots.decade !! r = Some (Frame rows')) [1%nat])
    as Hind by (repeat (constructor; [by eexists|]); constructor).
  assert (Forall (λ r : Row Qc, 1683 ≤ year (observation_date r) ≤ 9999)
                 (rows_at Plots.decade 0%nat)) as Hyears by compute_done.
  destruct (window_keeps_recent_rows 0%nat [1%nat] ["Steel"] (rows_at Plots.decade 0%nat)
              Plots.decade eq_refl Hind Hyears)
    as (fig & w' & Hrun & _ & Hwindow & Hframe).
  destruct (Hwindow (mkTimestamp 2024 2 29)) as [(t0 & Ht0 & Hx0 & _) Hi].
  { compute_done. }
  { apply Forall_forall. compute_done. }
  destruct (Hi 0%nat 1%nat "Steel" (rows_at Plots.decade 1%nat) eq_refl eq_refl eq_refl)
    as (t1 & Ht1 & _ & Hx1 & _).
  exists (rows_at Plots.decade 0%nat), fig, w', t0, t1.
  split; [reflexivity|]. split; [exact Hind|]. split; [exact Hyears|].
  split; [exact Hrun|]. split; [exact Ht0|]. split; [exact Hx0|].
  split; [exact Ht1|]. split; [exact Hx1|]. exact Hframe.
Defined.

(** C7 as the specification has it fails in binary64: the frames hold
    1e16, -1e16 and 1 on the same date; added in this order they give 1,
    with the last two exchanged they give 0, because 1e16 + 1 rounds to
    1e16.  (The compensated sum of pandas gives the same two results on
    these rows.) *)
Lemma aggregate_order_matters_in_binary64 :
  [0; 1; 2]%nat ≡ₚ [0; 2; 1]%nat ∧
  ∃ a a' w1 w1' df df',
    aggregate [0; 1; 2]%nat Plots.cancelling = (Ok a, w1) ∧
    aggregate [0; 2; 1]%nat Plots.cancelling = (Ok a', w1') ∧
    heap w1 !! a = Some df ∧
    heap w1' !! a' = Some df' ∧
    df = Frame [mkRow Scenario.jan Binary64.unit] ∧
    df' = Frame [mkRow Scenario.jan Binary64.nothing] ∧
    df ≠ df'.
Proof.
  split; [apply perm_skip, perm_swap|].
  do 6 eexists. split; [by vm_compute|]. split; [by vm_compute|].
  split; [by vm_compute|]. split; [by vm_compute|].
  split; [done|]. split; [done|].
  intros Heq.
  assert (PrimFloat.eqb Binary64.unit Binary64.unit
          = PrimFloat.eqb Binary64.nothing Binary64.unit) as Habs.
  { f_equal. congruence. }
  vm_compute in Habs. discriminate.
Qed.

Lemma aggregate_order_independent_witness :
  let w := mkWorld Scenario.warehouse
             [Frame [mkRow Scenario.jan (Scenario.q 6); mkRow Scenario.feb (Scenario.q 7)];
              Frame [mkRow Scenario.jan (Scenario.q 8)];
              Frame [mkRow Scenario.feb (Scenario.q 1)]] 0 [] in
  Forall (λ r, ∃ rows, heap w !! r = Some (Frame rows)) [0; 1; 2]%nat ∧
  [0; 1; 2]%nat ≡ₚ [2; 0; 1]%nat ∧
  ∃ a a' w1 w1' df,
    aggregate [0; 1; 2]%nat w = (Ok a, w1) ∧
    aggregate [2; 0; 1]%nat w = (Ok a', w1') ∧
    heap w1 !! a = Some df ∧
    heap w1' !! a' = Some df ∧
    ∀ r, r ∈ frame_rows df →
      group_values (observation_date r) (mjoin (rows_at w <$> [0; 1; 2]%nat))
      ≡ₚ group_values (observation_date r) (mjoin (rows_at w <$> [2; 0; 1]%nat)) ∧
      adjusted_index_value r
      = vsum (group_values (observation_date r) (mjoin (rows_at w <$> [0; 1; 2]%nat))).
Proof.
  intros w.
  assert (Forall (λ r, ∃ rows, heap w !! r = Some (Frame rows)) [0; 1; 2]%nat) as Hrs
    by (repeat (constructor; [by eexists|]); constructor).
  assert ([0; 1; 2]%nat ≡ₚ [2; 0; 1]%nat) as Hperm.
  { symmetry. apply (Permutation_cons_append [0; 1]%nat 2%nat). }
  split; [exact Hrs|]. split; [exact Hperm|].
  destruct (aggregate_order_independent [0; 1; 2]%nat [2; 0; 1]%nat w Hrs Hperm)
    as (a & a' & w1 & w1' & df & df' & Hrun & Hrun' & Hdf & Hdf' & _ & Hsums & Hsame).
  rewrite <-(Hsame Qc_ExactArith) in Hdf'. exists a, a', w1, w1', df.
  do 4 (split; [done|]). intros r Hr.
  destruct (Hsums r Hr) as (Hvalues & Hsum & _). by split.
Defined.

Lemma outputs_parallel_witness :
  ∃ out w',
    process_data Scenario.selections Scenario.start = (Ok out, w') ∧
    length (individual_indexes out) = 2%nat ∧
    index_categories out !! 1%nat = Some "Oil" ∧
    index_ids out !! 1%nat = Some "WPU0561".
Proof.
  destruct (outputs_parallel Scenario.selections Scenario.start)
    as (out & w' & Hrun & _ & Hlen & _ & _ & Hat).
  - apply ScenarioFacts.start_reachable.
  - destruct (Hat 1%nat (mkSurvivor Scenario.oil "WPU0561"
                (time_series Scenario.warehouse "WPU0561")))
      as (Hlabel & Hid & _); [by vm_compute|].
    by exists out, w'.
Defined.

(** C9, as the specification has it, fails: with the warehouse out of
    reach the run does not go on as if the selection had resolved to
    nothing; it raises. *)
Lemma failed_call_is_not_dropped :
  online (database Scenario.start_unreachable) (connects Scenario.start_unreachable) = false ∧
  process_data [Scenario.steel] Scenario.start_unreachable
  = (Raise OperationalError, mkWorld Scenario.unreachable_warehouse [] 1 []) ∧
  ¬ ∃ out w', process_data [Scenario.steel] Scenario.start_unreachable = (Ok out, w').
Proof.
  split; [done|]. split; [by vm_compute|].
  intros (out & w' & Hrun). vm_compute in Hrun. discriminate Hrun.
Qed.

Lemma failed_call_propagates_witness :
  let w := mkWorld (mkDatabase Scenario.details Scenario.observations
                      (λ n, bool_decide (n ≠ 1%nat))) [] 0 [] in
  (1 < calls (database w) Scenario.selections)%nat ∧
  answered 1 w ∧
  online (database w) (connects w + 1) = false ∧
  ∃ w', process_data Scenario.selections w = (Raise OperationalError, w') ∧
        ∀ out w'', process_data Scenario.selections w ≠ (Ok out, w'').
Proof.
  intros w.
  assert (1 < calls (database w) Scenario.selections)%nat as Hk by (vm_compute; lia).
  assert (answered 1 w) as Hup.
  { intros n Hn. assert (n = 0%nat) as -> by (simpl in Hn; lia). done. }
  split; [done|]. split; [done|]. split; [done|].
  by apply (failed_call_propagates Scenario.selections w 1).
Defined.

Lemma zero_weight_survivor_kept_witness :
  let selections := [Scenario.steel_unweighted; Scenario.oil] in
  let sv := mkSurvivor Scenario.steel_unweighted "WPU1017"
              (time_series Scenario.warehouse "WPU1017") in
  survivors Scenario.warehouse selections !! 0%nat = Some sv ∧
  ∃ out w' rows,
    process_data selections Scenario.start = (Ok out, w') ∧
    heap w' !! aggregated_index out = Some (Frame rows) ∧
    index_categories out !! 0%nat = Some "Steel" ∧
    index_ids out !! 0%nat = Some "WPU1017" ∧
    (∀ d, d ∈ observation_date <$> sv_series sv → d ∈ observation_date <$> rows) ∧
    (∀ r, r ∈ rows →
          adjusted_index_value r
          = vsum (contributions (observation_date r)
                    (delete 0%nat (survivors Scenario.warehouse selections)))).
Proof.
  intros selections sv. split; [by vm_compute|].
  destruct (zero_weight_survivor_kept selections Scenario.start 0%nat sv)
    as (out & w' & rows & Hrun & Hagg & Hlabel & Hid & _ & _ & Hdates & Hvalues & _).
  - apply ScenarioFacts.start_reachable.
  - by vm_compute.
  - by vm_compute.
  - by exists out, w', rows.
Defined.

(** * Further properties of the program *)

(** ** [db.py] *)

Section more_db.
Context {V : Type}.
Implicit Types (w : World V).

(** X2.  [fetch_timeseries_data]: on an empty list of identifiers it
    raises [IndexError], after the connection, without query; otherwise
    it returns a new frame, next to the objects already there, which
    holds the observations of the first identifier and no other. *)
Theorem fetch_timeseries_data_contract w :
  online (database w) (connects w) = true →
  (∃ w', fetch_timeseries_data [] w = (Raise IndexError, w') ∧
         heap w' = heap w ∧ queries w' = queries w ∧ connects w' = S (connects w)) ∧
  ∀ first others,
    ∃ r w' rows,
      fetch_timeseries_data (first :: others) w = (Ok r, w') ∧
      heap w !! r = None ∧
      heap w' !! r = Some (Frame rows) ∧
      (∀ r' df, heap w !! r' = Some df → heap w' !! r' = Some df) ∧
      (∀ d v, mkRow d v ∈ rows ↔
              mkAdjustedObservation first d v ∈ ppi_adjusted_2020 (database w)).
Proof.
  intros Hon. split.
  - unfold fetch_timeseries_data, connect_to_database, mbind, M_bind. rewrite Hon.
    by eexists.
  - intros first others. do 3 eexists.
    split; [by apply fetch_timeseries_data_run|]. cbn [heap set_heap log_query bump_connects].
    split; [by apply lookup_ge_None_2|].
    split; [apply (list_lookup_middle (heap w) []); done|].
    split; [intros r' df Hr'; by apply lookup_app_l_Some|].
    intros d v. unfold time_series, adjusted_rows.
    rewrite list_elem_of_fmap. split.
    + intros ([sid d' v'] & [= -> ->] & Ho). apply list_elem_of_filter in Ho as [Hs Ho].
      simpl in Hs. by subst.
    + intros Ho. exists (mkAdjustedObservation first d v). split; [done|].
      by apply list_elem_of_filter.
Qed.

#[global] Instance commodity_le_total : Total commodity_le.
Proof.
  intros a b. unfold commodity_le.
  destruct (decide (cm_category_2 a = cm_category_2 b)) as [Heq|Hne].
  - rewrite Heq. destruct (total String.le (cm_category_3 a) (cm_category_3 b)).
    + left. split; [done|]. done.
    + right. split; [done|]. done.
  - destruct (total String.le (cm_category_2 a) (cm_category_2 b)).
    + left. split; [done|]. done.
    + right. split; [done|]. intros Heq. by destruct Hne.
Qed.

(** X3.  [fetch_all_categories] returns every row of the table, each as
    many times as the table has it, in ascending order of [category_2]
    and, within a [category_2], of [category_3]; [__init__] keeps this
    list as [df_categories].  The store and the query log are
    untouched. *)
Theorem fetch_all_categories_sorted (table : list Commodity) w :
  online (database w) (connects w) = true →
  ∃ df w',
    fetch_all_categories table w = (Ok df, w') ∧
    StreamlitApp_init table w = (Ok (mkStreamlitApp df), w') ∧
    df ≡ₚ table ∧
    Sorted commodity_le df ∧
    heap w' = heap w ∧ queries w' = queries w ∧ connects w' = S (connects w).
Proof.
  intros Hon. exists (merge_sort commodity_le table), (bump_connects w).
  unfold StreamlitApp_init, fetch_all_categories, connect_to_database, mbind, M_bind.
  rewrite Hon. split; [done|]. split; [done|].
  split; [apply merge_sort_Permutation|]. split; [|done].
  apply (Sorted_merge_sort commodity_le).
Qed.

End more_db.

(** ** [process_data] *)

Section more_process_data.
Context {V : Type} `{HA : Arith V}.
Implicit Types (w : World V) (selections : list (Selection V))
  (svs : list (Survivor V)) (d : Timestamp).

Lemma answered_le k n w : (k ≤ n)%nat → answered n w → answered k w.
Proof. intros Hk Hn m Hm. apply Hn. lia. Qed.

Lemma calls_app (db : Database V) selections1 selections2 :
  calls db (selections1 ++ selections2)
  = (calls db selections1 + calls db selections2)%nat.
Proof. unfold calls. rewrite survivors_app, !length_app. lia. Qed.

Lemma length_selection_queries (db : Database V) selections :
  length (mjoin (selection_queries db <$> selections)) = calls db selections.
Proof.
  unfold calls. induction selections as [|s selections IH]; [done|]. csimpl.
  rewrite length_app, IH. unfold selection_queries, survivors. csimpl. unfold survivor.
  destruct (resolve db s); simpl; lia.
Qed.

Lemma survivor_refs_lookup_Some offset base svs i r :
  survivor_refs offset base svs !! i = Some r →
  r = (base + 3 * i + offset)%nat ∧ (i < length svs)%nat.
Proof.
  revert base i. induction svs as [|sv svs IH]; intros base i; [done|].
  destruct i as [|i]; simpl.
  - intros [= <-]. split; lia.
  - intros Hr. apply IH in Hr as [-> ?]. split; lia.
Qed.

Lemma survivor_refs_NoDup offset base svs : NoDup (survivor_refs offset base svs).
Proof.
  apply NoDup_alt. intros i j r Hi Hj.
  apply survivor_refs_lookup_Some in Hi as [-> _].
  apply survivor_refs_lookup_Some in Hj as [Hj _]. lia.
Qed.

(** X5.  The composite that [process_data] returns is in strictly
    ascending order of date, whatever the order of the selections and of
    the rows the warehouse returns. *)
Theorem composite_strictly_ascending selections w :
  reachable selections w →
  ∃ out w' df,
    process_data selections w = (Ok out, w') ∧
    heap w' !! aggregated_index out = Some df ∧
    Sorted ts_lt (observation_date <$> frame_rows df).
Proof.
  intros Hw. do 3 eexists. split; [by apply process_data_ok|].
  split; [apply final_world_aggregated|].
  destruct (survivors (database w) selections) as [|sv svs]; [constructor|].
  apply composite_rows_sorted.
Qed.

(** X6.  [process_data] works on objects of its own: the frames it
    returns are new, different from one another, and present in the
    store; every object that was there before is unchanged, and so is the
    warehouse. *)
Theorem process_data_fresh_frames selections w :
  reachable selections w →
  ∃ out w',
    process_data selections w = (Ok out, w') ∧
    NoDup (aggregated_index out :: individual_indexes out) ∧
    Forall (λ r, heap w !! r = None ∧ is_Some (heap w' !! r))
           (aggregated_index out :: individual_indexes out) ∧
    (∀ r df, heap w !! r = Some df → heap w' !! r = Some df) ∧
    database w' = database w.
Proof.
  intros Hw. do 2 eexists. split; [by apply process_data_ok|].
  split; [|split; [|split]].
  - apply NoDup_cons. split; [|apply survivor_refs_NoDup].
    unfold final_result. cbn [aggregated_index individual_indexes].
    intros Hin. apply list_elem_of_lookup in Hin as [i Hi].
    apply survivor_refs_lookup_Some in Hi as [Hi ?]. lia.
  - constructor.
    + split; [|by rewrite final_world_aggregated].
      apply lookup_ge_None_2. unfold final_result. cbn [aggregated_index]. lia.
    + apply Forall_forall. intros r Hr. split.
      * unfold final_result in Hr. cbn [individual_indexes] in Hr.
        apply list_elem_of_lookup in Hr as [i Hi].
        apply survivor_refs_lookup_Some in Hi as [-> _]. apply lookup_ge_None_2. lia.
      * apply list_elem_of_lookup in Hr as [i Hi].
        destruct (Forall2_lookup_l _ _ _ _ _ (final_world_individual selections w) Hi)
          as (sv & _ & Hr).
        by rewrite Hr.
  - intros r df. apply final_world_frame.
  - done.
Qed.

(** X7.  The traffic of a run: [process_data] connects once per
    selection and once more per survivor, and sends one query per
    connection, in the order of the selections: for each selection the
    query for its identifiers, followed, if it resolves, by the query for
    the series of the first of them. *)
Theorem process_data_traffic selections w :
  reachable selections w →
  ∃ out w',
    process_data selections w = (Ok out, w') ∧
    connects w'
    = (connects w + length selections
       + length (filter (λ s, resolve (database w) s ≠ []) selections))%nat ∧
    queries w' = queries w ++ mjoin (selection_queries (database w) <$> selections) ∧
    (length (queries w') - length (queries w) = connects w' - connects w)%nat.
Proof.
  intros Hw. do 2 eexists. split; [by apply process_data_ok|].
  unfold final_world. cbn [connects queries].
  rewrite <-survivors_selections, length_fmap. split; [done|]. split; [done|].
  rewrite length_app, length_selection_queries. unfold calls. lia.
Qed.

Lemma head_filter_fmap {A} (f : A → Row V) (P : Row V → Prop) `{∀ r, Decision (P r)}
    (l : list A) :
  head (filter P (f <$> l)) = f <$> head (filter (λ a, P (f a)) l).
Proof.
  induction l as [|a l IH]; [done|]. csimpl. rewrite !filter_cons.
  destruct (decide (P (f a))); [done|]. apply IH.
Qed.

Lemma value_at_groupby_sum d (rows : list (Row V)) :
  value_at d (groupby_sum rows) = vsum (group_values d rows).
Proof.
  unfold value_at, value_on, groupby_sum.
  rewrite (head_filter_fmap _ (λ r, observation_date r = d)). simpl.
  destruct (head (filter _ _)) as [k|] eqn:Hk; simpl.
  - apply head_Some_elem_of, list_elem_of_filter in Hk as [-> _]. done.
  - apply head_None in Hk.
    assert (d ∉ observation_date <$> rows) as Hd.
    { intros Hd. apply elem_of_group_keys in Hd.
      assert (d ∈ filter (λ a, a = d) (group_keys (observation_date <$> rows))) as Hin
        by (by apply list_elem_of_filter).
      rewrite Hk in Hin. by apply elem_of_nil in Hin. }
    unfold group_values.
    assert (filter (λ r, observation_date r = d) rows = []) as ->; [|done].
    apply elem_of_nil_inv. intros r Hr. apply list_elem_of_filter in Hr as [<- Hr].
    by apply Hd, list_elem_of_fmap_2.
Qed.

Lemma value_at_composite d svs :
  value_at d (frame_rows (composite_frame svs)) = vsum (contributions d svs).
Proof.
  destruct svs as [|sv svs]; [done|]. cbn [composite_frame frame_rows].
  unfold composite_rows, contributions.
  by rewrite value_at_groupby_sum, group_values_mjoin, <-list_fmap_compose.
Qed.

(** X8.  The composite is additive in the selections: on every date,
    the composite of two lists of selections put end to end is the sum of
    the composites of the two lists, a composite counting for 0 on a date
    it does not have (exact arithmetic). *)
Theorem composite_additive `{!ExactArith V} selections1 selections2 w :
  reachable (selections1 ++ selections2) w →
  ∃ out out1 out2 w' w1 w2 df df1 df2,
    process_data (selections1 ++ selections2) w = (Ok out, w') ∧
    process_data selections1 w = (Ok out1, w1) ∧
    process_data selections2 w = (Ok out2, w2) ∧
    heap w' !! aggregated_index out = Some df ∧
    heap w1 !! aggregated_index out1 = Some df1 ∧
    heap w2 !! aggregated_index out2 = Some df2 ∧
    ∀ d, value_at d (frame_rows df)
         = vadd (value_at d (frame_rows df1)) (value_at d (frame_rows df2)).
Proof.
  intros Hw. unfold reachable in Hw. rewrite calls_app in Hw.
  assert (reachable selections1 w) as Hw1 by (eapply answered_le; [|exact Hw]; lia).
  assert (reachable selections2 w) as Hw2 by (eapply answered_le; [|exact Hw]; lia).
  do 9 eexists.
  split; [apply process_data_ok; unfold reachable; by rewrite calls_app|].
  split; [by apply process_data_ok|]. split; [by apply process_data_ok|].
  split; [apply final_world_aggregated|]. split; [apply final_world_aggregated|].
  split; [apply final_world_aggregated|].
  intros d. rewrite !value_at_composite, survivors_app, contributions_app.
  apply vsum_app.
Qed.

End more_process_data.

Lemma composite_strictly_ascending_witness :
  reachable Scenario.staggered_selections
            (mkWorld Scenario.staggered_warehouse [] 0 []) ∧
  ∃ out w' df,
    process_data Scenario.staggered_selections
                 (mkWorld Scenario.staggered_warehouse [] 0 []) = (Ok out, w') ∧
    heap w' !! aggregated_index out = Some df ∧
    Sorted ts_lt (observation_date <$> frame_rows df).
Proof.
  assert (reachable Scenario.staggered_selections
            (mkWorld Scenario.staggered_warehouse [] 0 [])) as Hw by (by intros n _).
  split; [exact Hw|]. exact (composite_strictly_ascending _ _ Hw).
Defined.

Lemma process_data_fresh_frames_witness :
  reachable Scenario.selections Scenario.processed ∧
  ∃ out w',
    process_data Scenario.selections Scenario.processed = (Ok out, w') ∧
    NoDup (aggregated_index out :: individual_indexes out) ∧
    Forall (λ r, heap Scenario.processed !! r = None ∧ is_Some (heap w' !! r))
           (aggregated_index out :: individual_indexes out) ∧
    (∀ r df, heap Scenario.processed !! r = Some df → heap w' !! r = Some df) ∧
    database w' = database Scenario.processed.
Proof.
  assert (reachable Scenario.selections Scenario.processed) as Hw by (by intros n _).
  split; [exact Hw|]. exact (process_data_fresh_frames _ _ Hw).
Defined.

Lemma process_data_traffic_witness :
  reachable (Scenario.copper :: Scenario.selections) Scenario.start ∧
  ∃ out w',
    process_data (Scenario.copper :: Scenario.selections) Scenario.start = (Ok out, w') ∧
    connects w'
    = (connects Scenario.start + length (Scenario.copper :: Scenario.selections)
       + length (filter (λ s, resolve (database Scenario.start) s ≠ [])
                        (Scenario.copper :: Scenario.selections)))%nat ∧
    queries w'
    = queries Scenario.start
      ++ mjoin (selection_queries (database Scenario.start)
                  <$> Scenario.copper :: Scenario.selections) ∧
    (length (queries w') - length (queries Scenario.start)
     = connects w' - connects Scenario.start)%nat.
Proof.
  split; [apply ScenarioFacts.start_reachable|].
  apply process_data_traffic, ScenarioFacts.start_reachable.
Defined.

Lemma composite_additive_witness :
  reachable ([Scenario.steel] ++ [Scenario.oil]) Scenario.start ∧
  ∃ out out1 out2 w' w1 w2 df df1 df2,
    process_data ([Scenario.steel] ++ [Scenario.oil]) Scenario.start = (Ok out, w') ∧
    process_data [Scenario.steel] Scenario.start = (Ok out1, w1) ∧
    process_data [Scenario.oil] Scenario.start = (Ok out2, w2) ∧
    heap w' !! aggregated_index out = Some df ∧
    heap w1 !! aggregated_index out1 = Some df1 ∧
    heap w2 !! aggregated_index out2 = Some df2 ∧
    ∀ d, value_at d (frame_rows df)
         = vadd (value_at d (frame_rows df1)) (value_at d (frame_rows df2)).
Proof.
  split; [apply ScenarioFacts.start_reachable|].
  apply (composite_additive [Scenario.steel] [Scenario.oil] Scenario.start),
    ScenarioFacts.start_reachable.
Defined.

(** ** [generate_plot] *)

Section more_generate_plot.
Context {V : Type}.
Implicit Types (w : World V) (rows : list (Row V)) (fig : Figure V)
  (start : option Timestamp).

Lemma five_years_before_le t : ts_le (five_years_before t) t.
Proof.
  apply ts_leb_lt_or_eq. left. apply ts_compare_lt_iff. left. simpl. lia.
Qed.

Lemma paired_frames (individual : list ref) (labels : list string) w :
  Forall (λ r, ∃ rows', heap w !! r = Some (Frame rows')) individual →
  Forall2 (λ p rows', heap w !! p.1 = Some (Frame rows'))
          (zip individual labels)
          ((λ p : ref * string, rows_at w p.1) <$> zip individual labels).
Proof.
  intros Hind. apply Forall2_fmap_r, Forall_Forall2_diag, Forall_forall.
  intros [r label] Hin. simpl. apply elem_of_zip_l in Hin.
  rewrite Forall_forall in Hind. destruct (Hind r Hin) as [rows' Hr].
  unfold rows_at. by rewrite Hr.
Qed.

Lemma traces_of_pairs {A} start (l : Line) (f : A → string) (g : A → list (Row V))
    (pairs : list A) :
  zip_with (λ p rows', trace_of start (f p) l rows') pairs (g <$> pairs)
  = (λ p, trace_of start (f p) l (g p)) <$> pairs.
Proof. induction pairs as [|p pairs IH]; csimpl; by f_equal. Qed.

Lemma snd_zip_take {A B} (l : list A) (k : list B) : (zip l k).*2 = take (length l) k.
Proof.
  revert k. induction l as [|a l IH]; intros [|b k]; csimpl; [done..|].
  by rewrite IH.
Qed.

Lemma window_all start rows :
  Forall (λ r, in_window start r = true) rows → window start rows = rows.
Proof.
  unfold window. induction 1 as [|r rows Hr _ IH]; simpl; [done|].
  by rewrite Hr, IH.
Qed.

Lemma window_sublist start rows : window start rows `sublist_of` rows.
Proof.
  unfold window. induction rows as [|r rows IH]; simpl; [done|].
  destruct (in_window start r); by constructor.
Qed.

(** In a frame in ascending order of date the window is the tail of the
    frame. *)
Lemma window_suffix start rows :
  Sorted rows_le rows → window start rows `suffix_of` rows.
Proof.
  intros Hs. apply (Sorted_StronglySorted _) in Hs.
  induction Hs as [|r rows _ IH Hall]; [done|].
  destruct (in_window start r) eqn:Hr.
  - rewrite window_all; [done|]. constructor; [done|].
    eapply Forall_impl; [exact Hall|]. intros r' Hle.
    unfold in_window in *. destruct start as [s|]; [|done].
    by apply (ts_leb_trans _ (observation_date r)).
  - unfold window. simpl. rewrite Hr. by apply suffix_cons_r.
Qed.

Lemma window_sorted start rows :
  Sorted rows_le rows → Sorted ts_le (observation_date <$> window start rows).
Proof.
  intros Hs. apply (Sorted_StronglySorted _) in Hs.
  apply StronglySorted_Sorted.
  induction Hs as [|r rows _ IH Hall]; [constructor|].
  unfold window. simpl. destruct (in_window start r); [|done]. csimpl.
  constructor; [done|]. apply Forall_fmap, Forall_forall. intros r' Hr'.
  rewrite Forall_forall in Hall. apply Hall.
  by apply elem_of_window in Hr' as [Hr' _].
Qed.

(** A paired frame without columns stops the loop of [generate_plot]. *)
Lemma plot_individual_no_columns pre r label post (rowss : list (list (Row V)))
    start fig w :
  Forall2 (λ p rows', heap w !! p.1 = Some (Frame rows')) pre rowss →
  heap w !! r = Some NoColumns →
  ∃ w', plot_individual (pre ++ (r, label) :: post) start fig w
        = (Raise (KeyError "observation_date"), w').
Proof.
  intros Hpre. revert fig w Hpre.
  induction pre as [|[r0 label0] pre IH] in rowss |- *; intros fig w Hpre Hr.
  - simpl. eexists.
    by rewrite (bind_raise _ _ _ _ _ (df_getitem_dates_no_columns _ _ Hr)).
  - apply Forall2_cons_inv_l in Hpre as (rows & rowss' & Hr0 & Hpre & ->).
    simpl in Hr0. simpl.
    rewrite (bind_ok _ _ _ _ _ (df_getitem_dates_run _ _ _ Hr0)).
    erewrite bind_ok;
      [|apply (df_getitem_mask_run _ rows); [done|]];
      [|by unfold series_ge; rewrite !length_fmap].
    erewrite bind_ok;
      [|apply df_getitem_dates_run; apply (list_lookup_middle (heap w) []); done].
    erewrite bind_ok;
      [|apply df_getitem_values_run; apply (list_lookup_middle (heap w) []); done].
    apply (IH rowss').
    + eapply Forall2_impl; [exact Hpre|]. intros p rows' Hp. simpl.
      by apply lookup_app_l_Some.
    + simpl. by apply lookup_app_l_Some.
Qed.

(** Frames that are all in the store either all have columns, or there
    is a first one without. *)
Lemma frames_or_no_columns (pairs : list (ref * string)) w :
  Forall (λ p, is_Some (heap w !! p.1)) pairs →
  Forall (λ p, ∃ rows', heap w !! p.1 = Some (Frame rows')) pairs ∨
  ∃ pre r label post,
    pairs = pre ++ (r, label) :: post ∧
    Forall (λ p, ∃ rows', heap w !! p.1 = Some (Frame rows')) pre ∧
    heap w !! r = Some NoColumns.
Proof.
  induction 1 as [|[r label] pairs [df Hr] _ [IH|(pre & r' & label' & post & -> & Hpre & Hr')]].
  - left. constructor.
  - simpl in Hr. destruct df as [|rows'].
    + right. exists [], r, label, pairs. split; [done|]. split; [constructor|done].
    + left. constructor; [by eexists|done].
  - simpl in Hr. destruct df as [|rows'].
    + right. exists [], r, label, (pre ++ (r', label') :: post).
      split; [done|]. split; [constructor|done].
    + right. exists ((r, label) :: pre), r', label', post.
      split; [done|]. split; [|done]. constructor; [by eexists|done].
Qed.

Lemma frames_rows_at (pairs : list (ref * string)) w :
  Forall (λ p, ∃ rows', heap w !! p.1 = Some (Frame rows')) pairs →
  Forall2 (λ p rows', heap w !! p.1 = Some (Frame rows')) pairs
          ((λ p : ref * string, rows_at w p.1) <$> pairs).
Proof.
  intros Hall. apply Forall2_fmap_r, Forall_Forall2_diag.
  eapply Forall_impl; [exact Hall|]. intros p [rows' Hp]. simpl. unfold rows_at. by rewrite Hp.
Qed.

(** X9.  For a composite whose dates leave room for five years (years
    1683 to 9999), the figure has one trace for the composite, named
    "Composite Index", followed by one trace per pair of
    [zip(individual_indexes, index_categories)], named by the label: a
    frame without label, or a label without frame, is not drawn.  Every
    trace is drawn as lines, with as many abscissas as ordinates; the
    composite has its own colour and width. *)
Theorem generate_plot_traces agg individual labels rows w :
  heap w !! agg = Some (Frame rows) →
  Forall (λ r, ∃ rows', heap w !! r = Some (Frame rows')) individual →
  Forall (λ r, 1683 ≤ year (observation_date r) ≤ 9999) rows →
  ∃ fig w',
    generate_plot agg individual labels w = (Ok fig, w') ∧
    name <$> data fig = "Composite Index" :: take (length individual) labels ∧
    length (data fig) = S (length individual `min` length labels) ∧
    line <$> data fig
    = mkLine "#093D44" 5
      :: replicate (length individual `min` length labels) (mkLine "#71869d" 1) ∧
    Forall (λ t, mode t = "lines" ∧ length (x t) = length (y t)) (data fig) ∧
    title fig = Some "Composite Index and Individual Indices - Last 5 Years".
Proof.
  intros Hagg Hind Hyears. do 2 eexists.
  split; [apply (generate_plot_run _ _ _ _ _ _ _ Hagg (paired_frames _ labels _ Hind)
                   (sub_date_offset_run rows w Hyears))|].
  cbn [data title]. rewrite (traces_of_pairs _ _ snd (λ p, rows_at w p.1)).
  set (start := five_years_before <$> series_max (observation_date <$> rows)).
  split; [|split; [|split; [|split; [|done]]]].
  - csimpl. f_equal. rewrite <-list_fmap_compose, <-snd_zip_take.
    by apply list_fmap_ext.
  - simpl. by rewrite length_fmap, length_zip_with.
  - csimpl. f_equal. rewrite <-list_fmap_compose, <-(length_zip_with pair).
    generalize (zip_with pair individual labels). intros l.
    induction l as [|p l IH]; csimpl; by f_equal.
  - constructor.
    + unfold trace_of. simpl. by rewrite !length_fmap.
    + apply Forall_fmap, Forall_forall. intros p _. unfold trace_of. simpl.
      by rewrite !length_fmap.
Qed.

(** X10.  When the composite has rows, with dates that leave room for
    five years (years 1683 to 9999), its trace is not empty: it holds the
    latest date of the composite, and none of its dates is later than
    that date or from a year more than five years before it. *)
Theorem latest_observation_plotted agg individual labels rows w :
  heap w !! agg = Some (Frame rows) →
  Forall (λ r, ∃ rows', heap w !! r = Some (Frame rows')) individual →
  Forall (λ r, 1683 ≤ year (observation_date r) ≤ 9999) rows →
  rows ≠ [] →
  ∃ fig w' t last,
    generate_plot agg individual labels w = (Ok fig, w') ∧
    data fig !! 0%nat = Some t ∧
    last ∈ observation_date <$> rows ∧
    (∀ d, d ∈ observation_date <$> rows → ts_le d last) ∧
    last ∈ x t ∧
    ∀ d, d ∈ x t → year last - 5 ≤ year d ∧ ts_le d last.
Proof.
  intros Hagg Hind Hyears Hne.
  destruct (series_max (observation_date <$> rows)) as [last|] eqn:Hlast;
    [|by destruct rows].
  do 3 eexists. exists last.
  split; [apply (generate_plot_run _ _ _ _ _ _ _ Hagg (paired_frames _ labels _ Hind)
                   (sub_date_offset_run rows w Hyears))|].
  split; [done|]. split; [by eapply series_max_elem|].
  split; [intros d Hd; by eapply (series_max_ge _ _ _ Hlast)|].
  rewrite Hlast. cbn [x trace_of fmap option_fmap option_map].
  split.
  - pose proof (series_max_elem _ _ Hlast) as Hin.
    apply list_elem_of_fmap in Hin as (r & -> & Hr).
    apply list_elem_of_fmap_2, elem_of_window. split; [done|].
    eexists. split; [done|]. apply five_years_before_le.
  - intros d (r & -> & Hr)%list_elem_of_fmap.
    apply elem_of_window in Hr as (Hr & s0 & [= <-] & Hs). split.
    + apply ts_leb_lt_or_eq in Hs as [Hs| <-]; [|simpl; lia].
      apply ts_compare_lt_iff in Hs. simpl in Hs. lia.
    + eapply series_max_ge; [done|]. by apply list_elem_of_fmap_2.
Qed.

(** X11.  A composite with the two columns and no row makes no error:
    its last date is [NaT], no date compares with it, and every trace of
    the figure is empty, whatever the individual frames hold. *)
Theorem empty_composite_plots_nothing agg individual labels w :
  heap w !! agg = Some (Frame []) →
  Forall (λ r, ∃ rows', heap w !! r = Some (Frame rows')) individual →
  ∃ fig w',
    generate_plot agg individual labels w = (Ok fig, w') ∧
    length (data fig) = S (length individual `min` length labels) ∧
    Forall (λ t, x t = [] ∧ y t = []) (data fig).
Proof.
  intros Hagg Hind. do 2 eexists.
  split; [by apply (generate_plot_run _ _ _ _ _ None _ Hagg
                      (paired_frames _ labels _ Hind))|].
  cbn [data]. rewrite (traces_of_pairs _ _ snd (λ p, rows_at w p.1)).
  split; [simpl; by rewrite length_fmap, length_zip_with|].
  assert (∀ rows', window None rows' = []) as Hnone.
  { intros rows'. unfold window. induction rows' as [|r rows' IH]; [done|]. done. }
  constructor; [done|]. apply Forall_fmap, Forall_forall. intros p _.
  unfold trace_of. simpl. by rewrite Hnone.
Qed.

(** X12.  Given a composite with its columns, whose dates leave room
    for five years (years 1683 to 9999), [generate_plot] returns a figure
    exactly when every individual frame that is paired with a label has
    its columns; otherwise what it raises is [KeyError] on
    [observation_date]. *)
Theorem generate_plot_needs_columns agg individual labels rows w :
  heap w !! agg = Some (Frame rows) →
  Forall (λ r, is_Some (heap w !! r)) individual →
  Forall (λ r, 1683 ≤ year (observation_date r) ≤ 9999) rows →
  ((∃ fig w', generate_plot agg individual labels w = (Ok fig, w')) ↔
   Forall (λ p, ∃ rows', heap w !! p.1 = Some (Frame rows')) (zip individual labels)) ∧
  (∀ e w', generate_plot agg individual labels w = (Raise e, w') →
           e = KeyError "observation_date").
Proof.
  intros Hagg Hind Hyears.
  assert (Forall (λ p : ref * string, is_Some (heap w !! p.1)) (zip individual labels))
    as Hpairs.
  { apply Forall_forall. intros [r label] Hin. apply elem_of_zip_l in Hin.
    rewrite Forall_forall in Hind. by apply Hind. }
  destruct (frames_or_no_columns _ _ Hpairs)
    as [Hall|(pre & r & label & post & Hzip & Hpre & Hr)].
  - pose proof (generate_plot_run _ _ _ _ _ _ _ Hagg (frames_rows_at _ _ Hall)
                  (sub_date_offset_run rows w Hyears)) as Hrun.
    simpl in Hrun. split.
    + split; [done|]. intros _. by do 2 eexists.
    + intros e w'. by rewrite Hrun.
  - assert (∃ w1, generate_plot agg individual labels w
                  = (Raise (KeyError "observation_date"), w1)) as [w1 Hrun].
    { unfold generate_plot.
      rewrite (bind_ok _ _ _ _ _ (df_getitem_dates_run _ _ _ Hagg)).
      rewrite (bind_ok _ _ _ _ _ (sub_date_offset_run rows w Hyears)).
      rewrite (bind_ok _ _ _ _ _ (df_getitem_dates_run _ _ _ Hagg)).
      erewrite bind_ok;
        [|apply (df_getitem_mask_run _ rows); [done|]];
        [|by unfold series_ge; rewrite !length_fmap].
      erewrite bind_ok;
        [|apply df_getitem_dates_run; apply (list_lookup_middle (heap w) []); done].
      erewrite bind_ok;
        [|apply df_getitem_values_run; apply (list_lookup_middle (heap w) []); done].
      rewrite Hzip.
      edestruct (plot_individual_no_columns pre r label post) as [w1 Hloop]; last first.
      { eexists. by rewrite (bind_raise _ _ _ _ _ Hloop). }
      - simpl. by apply lookup_app_l_Some.
      - apply frames_rows_at. eapply Forall_impl; [exact Hpre|].
        intros p [rows' Hp]. exists rows'. simpl. by apply lookup_app_l_Some. }
    split.
    + split.
      * intros (fig & w' & Hok). by rewrite Hrun in Hok.
      * rewrite Hzip, Forall_app, Forall_cons. intros (_ & [rows' Hr'] & _).
        simpl in Hr'. by rewrite Hr in Hr'.
    + intros e w'. rewrite Hrun. by intros [= <- _].
Qed.

(** X20.  A composite whose last date is before the year 6 cannot be
    plotted: five years earlier is no date of Python's calendar, and
    [generate_plot] raises [ValueError] on its second line, before it
    looks at any individual frame; the store is as it was. *)
Theorem generate_plot_before_year_six agg individual labels rows last w :
  heap w !! agg = Some (Frame rows) →
  last ∈ observation_date <$> rows →
  (∀ d, d ∈ observation_date <$> rows → ts_le d last) →
  year last < 6 →
  generate_plot agg individual labels w = (Raise ValueError, w).
Proof.
  intros Hagg Hlast Hmax Hyear. unfold generate_plot.
  rewrite (bind_ok _ _ _ _ _ (df_getitem_dates_run _ _ _ Hagg)).
  erewrite bind_raise; [done|]. unfold sub_date_offset.
  by rewrite (series_max_unique _ _ Hlast Hmax), sub_years_None.
Qed.

End more_generate_plot.

(** ** [process_data], then [generate_plot] *)

Section more_run.
Context {V : Type} `{HA : Arith V}.
Implicit Types (w : World V) (selections : list (Selection V))
  (svs : list (Survivor V)).

Lemma zip_fmap_same_length {A B C D} (f : A → B) (g : A → C) (h : D → B → C → Prop)
    (l : list D) (k : list A) (P : D → A → Prop) :
  Forall2 P l k →
  (∀ d a, P d a → h d (f a) (g a)) →
  Forall2 (λ p c, h p.1 p.2 c) (zip l (f <$> k)) (g <$> k).
Proof.
  intros Hlk Hh. induction Hlk as [|d a l k Hda _ IH]; csimpl; [constructor|].
  constructor; [simpl; auto|exact IH].
Qed.

Lemma traces_of_survivors {A} start (ln : Line) (f : A → string) (g : A → list (Row V))
    (l : list ref) (k : list A) :
  length l = length k →
  zip_with (λ (p : ref * string) rows', trace_of start p.2 ln rows') (zip l (f <$> k))
           (g <$> k)
  = (λ a, trace_of start (f a) ln (g a)) <$> k.
Proof.
  revert l. induction k as [|a k IH]; intros [|r l]; csimpl; try done.
  intros [= Hlen]. by rewrite IH.
Qed.

Lemma composite_years svs (P : Z → Prop) :
  Forall (λ sv, Forall (λ r, P (year (observation_date r))) (sv_series sv)) svs →
  Forall (λ r, P (year (observation_date r))) (composite_rows svs).
Proof.
  intros Hsvs. apply Forall_forall. intros r Hr.
  assert (observation_date r ∈ observation_date <$> composite_rows svs) as Hd
    by (by apply list_elem_of_fmap_2).
  apply elem_of_composite_dates in Hd as (sv & Hsv & Hd).
  apply list_elem_of_fmap in Hd as (r' & -> & Hr').
  rewrite Forall_forall in Hsvs. specialize (Hsvs sv Hsv).
  rewrite Forall_forall in Hsvs. by apply Hsvs.
Qed.

Lemma survivors_years (db : Database V) selections (P : Z → Prop) :
  Forall (λ o, P (year (ao_observation_date o))) (ppi_adjusted_2020 db) →
  Forall (λ sv, Forall (λ r, P (year (observation_date r))) (sv_series sv))
         (survivors db selections).
Proof.
  intros Htable. apply Forall_forall. intros sv Hsv.
  apply elem_of_survivors in Hsv as (_ & _ & ->).
  unfold time_series, adjusted_rows. apply Forall_fmap, Forall_forall.
  intros o Ho. apply list_elem_of_filter in Ho as [_ Ho]. simpl.
  rewrite Forall_forall in Htable. by apply Htable.
Qed.

(** The figure [run] draws from the outputs of [process_data]. *)
Lemma generate_plot_after_process_data selections w :
  let svs := survivors (database w) selections in
  let out := final_result selections w in
  let start :=
    five_years_before <$> series_max (observation_date <$> composite_rows svs) in
  Forall (λ o, 1683 ≤ year (ao_observation_date o) ≤ 9999)
         (ppi_adjusted_2020 (database w)) →
  svs ≠ [] →
  ∃ w2,
    generate_plot (aggregated_index out) (individual_indexes out) (index_categories out)
                  (final_world selections w)
    = (Ok (mkFigure
             (trace_of start "Composite Index" (mkLine "#093D44" 5) (composite_rows svs)
              :: ((λ sv, trace_of start (category_3 (sv_selection sv))
                                  (mkLine "#71869d" 1) (sort_rows (sv_series sv))) <$> svs))
             (Some "Composite Index and Individual Indices - Last 5 Years")),
       w2) ∧
    ∀ r df, heap (final_world selections w) !! r = Some df → heap w2 !! r = Some df.
Proof.
  intros svs out start Hyears Hne. eexists. split.
  - erewrite (generate_plot_run _ _ _ (composite_rows svs)
                ((λ sv, sort_rows (sv_series sv)) <$> svs) start).
    + do 4 f_equal. unfold out, final_result.
      cbn [individual_indexes index_categories]. fold svs.
      apply traces_of_survivors. by rewrite length_survivor_refs.
    + unfold out. rewrite final_world_aggregated. fold svs. by destruct svs.
    + unfold out, final_result at 2. cbn [index_categories]. fold svs.
      apply (zip_fmap_same_length _ _
               (λ r (_ : string) rows', heap (final_world selections w) !! r
                                       = Some (Frame rows'))
               _ _ _ (final_world_individual selections w)).
      by intros r sv Hr.
    + apply sub_date_offset_run.
      apply (composite_years svs (λ y, 1683 ≤ y ≤ 9999)).
      apply (survivors_years (database w) selections (λ y, 1683 ≤ y ≤ 9999) Hyears).
  - intros r df Hr. cbn [heap set_heap]. by apply lookup_app_l_Some.
Qed.

(** X13.  With at least one survivor, and a warehouse whose dates leave
    room for five years (years 1683 to 9999), the outputs of [process_data]
    are fit for [generate_plot]: the figure is drawn, with the composite
    first and then one trace per survivor, in the order of the
    selections, named by its [category_3]; the frames of the run are
    still in the store afterwards. *)
Theorem plot_after_process_data selections w :
  let svs := survivors (database w) selections in
  reachable selections w →
  Forall (λ o, 1683 ≤ year (ao_observation_date o) ≤ 9999)
         (ppi_adjusted_2020 (database w)) →
  svs ≠ [] →
  ∃ out w1 fig w2,
    process_data selections w = (Ok out, w1) ∧
    generate_plot (aggregated_index out) (individual_indexes out) (index_categories out) w1
    = (Ok fig, w2) ∧
    name <$> data fig
    = "Composite Index" :: (category_3 <$> filter (λ s, resolve (database w) s ≠ [])
                                                 selections) ∧
    (∀ r df, heap w1 !! r = Some df → heap w2 !! r = Some df).
Proof.
  intros svs Hw Hyears Hne.
  destruct (generate_plot_after_process_data selections w Hyears Hne)
    as (w2 & Hplot & Hkeep).
  do 4 eexists. split; [by apply process_data_ok|]. split; [exact Hplot|].
  split; [|exact Hkeep].
  cbn [data]. csimpl. f_equal. rewrite <-survivors_selections, <-!list_fmap_compose.
  by apply list_fmap_ext.
Qed.

(** X14.  In the figure drawn from the outputs of [process_data], for a
    warehouse whose dates leave room for five years (years 1683 to 9999),
    every trace is the tail of the frame it comes from: the plot cuts the
    old rows off the front of the composite and of each series, never a
    row in between, and the dates of every trace are in ascending
    order. *)
Theorem traces_are_tails selections w :
  let svs := survivors (database w) selections in
  reachable selections w →
  Forall (λ o, 1683 ≤ year (ao_observation_date o) ≤ 9999)
         (ppi_adjusted_2020 (database w)) →
  svs ≠ [] →
  ∃ out w1 fig w2,
    process_data selections w = (Ok out, w1) ∧
    generate_plot (aggregated_index out) (individual_indexes out) (index_categories out) w1
    = (Ok fig, w2) ∧
    Forall2 (λ t r, ∃ rows,
               heap w1 !! r = Some (Frame rows) ∧
               x t `suffix_of` (observation_date <$> rows) ∧
               y t `suffix_of` (adjusted_index_value <$> rows) ∧
               Sorted ts_le (x t))
            (data fig) (aggregated_index out :: individual_indexes out).
Proof.
  intros svs Hw Hyears Hne.
  destruct (generate_plot_after_process_data selections w Hyears Hne)
    as (w2 & Hplot & _).
  do 4 eexists. split; [by apply process_data_ok|]. split; [exact Hplot|].
  assert (∀ start (label : string) ln (rows : list (Row V)),
            Sorted rows_le rows →
            x (trace_of start label ln rows) `suffix_of` (observation_date <$> rows) ∧
            y (trace_of start label ln rows) `suffix_of` (adjusted_index_value <$> rows) ∧
            Sorted ts_le (x (trace_of start label ln rows))) as Htail.
  { intros start label ln rows Hs. cbn [x y trace_of].
    destruct (window_suffix start rows Hs) as [older Hrows].
    split; [|split].
    - exists (observation_date <$> older). by rewrite <-fmap_app, <-Hrows.
    - exists (adjusted_index_value <$> older). by rewrite <-fmap_app, <-Hrows.
    - by apply window_sorted. }
  cbn [data]. constructor.
  - exists (composite_rows svs). split.
    + rewrite final_world_aggregated. fold svs. by destruct svs.
    + apply (Htail _ "Composite Index" (mkLine "#093D44" 5)).
      unfold composite_rows. apply groupby_sum_sorted.
  - apply Forall2_fmap_l, Forall2_flip.
    eapply Forall2_impl; [apply final_world_individual|].
    intros r sv Hr. simpl. exists (sort_rows (sv_series sv)). split; [done|].
    apply (Htail _ (category_3 (sv_selection sv)) (mkLine "#71869d" 1)), sort_rows_sorted.
Qed.

End more_run.

(** ** [gather_user_inputs] *)

#[global] Instance Qc_CompareLaws : CompareLaws Qc.
Proof. by split. Qed.

Section more_gather_user_inputs.
Context {V : Type} `{HA : Arith V} `{HC : Compare V}.
Implicit Types (self : StreamlitApp) (ui : Widgets V) (state : list (Entry V))
  (session : SessionState V) (e : Entry V).

(** *** The session list *)

Lemma append_blank_replicate missing state :
  append_blank missing state = state ++ replicate missing blank_entry.
Proof.
  revert state. induction missing as [|m IH]; intros state; simpl.
  - by rewrite app_nil_r.
  - by rewrite IH, <-app_assoc.
Qed.

Lemma removelast_take {A} (l : list A) : removelast l = take (length l - 1) l.
Proof.
  rewrite removelast_firstn_len. f_equal. lia.
Qed.

Lemma pop_excess_take excess state :
  pop_excess excess state = take (length state - excess) state.
Proof.
  revert state. induction excess as [|n IH]; intros state; simpl.
  - by rewrite Nat.sub_0_r, firstn_all.
  - rewrite IH, removelast_take, take_take, length_take. f_equal. lia.
Qed.

Lemma adjust_session_take n session :
  adjust_session n session
  = take n (default [] (ss_selections session)
            ++ replicate (n - length (default [] (ss_selections session))) blank_entry).
Proof.
  unfold adjust_session. rewrite pop_excess_take, !append_blank_replicate.
  destruct (ss_selections session) as [l|]; simpl.
  - f_equal. rewrite length_app, length_replicate. lia.
  - rewrite length_replicate, Nat.sub_diag. simpl.
    by rewrite !app_nil_r, length_replicate, Nat.sub_diag, !Nat.sub_0_r.
Qed.

Lemma length_adjust_session n session : length (adjust_session n session) = n.
Proof.
  rewrite adjust_session_take, length_take, length_app, length_replicate. lia.
Qed.

Lemma blank_entry_ok `{!CompareLaws V} : weight_ok (@blank_entry V _).
Proof.
  unfold weight_ok, within. simpl.
  by rewrite zero_not_below_zero, hundred_not_below_zero.
Qed.

Lemma adjust_session_ok `{!CompareLaws V} n session :
  session_ok session → Forall weight_ok (adjust_session n session).
Proof.
  intros Hok. rewrite adjust_session_take. apply Forall_take, Forall_app. split.
  - unfold session_ok in Hok. by destruct (ss_selections session).
  - apply Forall_replicate, blank_entry_ok.
Qed.

(** *** The options *)

Lemma elem_of_unique x l : x ∈ unique l ↔ x ∈ l.
Proof.
  induction l as [|y l IH]; [done|]. simpl.
  rewrite !elem_of_cons, list_elem_of_filter, IH.
  destruct (decide (x = y)); tauto.
Qed.

Lemma head_unique l : head (unique l) = head l.
Proof. by destruct l. Qed.

Lemma list_index_elem c options :
  c ∈ options → ∃ j, list_index c options = Returns j ∧ options !! j = Some c.
Proof.
  induction options as [|y options IH]; intros Hc; [by apply elem_of_nil in Hc|].
  simpl. destruct (decide (c = y)) as [->|Hne]; [by exists 0%nat|].
  apply elem_of_cons in Hc as [?|Hc]; [done|].
  destruct (IH Hc) as (j & -> & Hj). by exists (S j).
Qed.

(** The option that comes up preselected: the previous one if it is
    still among the options, the first one otherwise. *)
Lemma preselected_index_option (previous : option string) options first :
  head options = Some first →
  ∃ j, preselected_index previous options = Returns j ∧
       options !! j
       = Some (match previous with
               | Some c => if decide (c ∈ options) then c else first
               | None => first
               end).
Proof.
  intros Hfirst.
  assert (options !! 0%nat = Some first) as H0 by (by destruct options).
  unfold preselected_index. destruct previous as [c|]; [|by exists 0%nat].
  destruct (decide (c ∈ options)) as [Hc|]; [|by exists 0%nat].
  by apply list_index_elem.
Qed.

Lemma st_selectbox_option options index chosen preselected :
  options !! index = Some preselected →
  ∃ c, st_selectbox options index chosen = Returns (Some c) ∧
       c ∈ options ∧
       (chosen = None → c = preselected).
Proof.
  intros Hidx. unfold st_selectbox. rewrite Hidx.
  destruct options as [|o options]; [done|].
  eexists. split; [done|]. split.
  - destruct chosen as [k|]; simpl.
    + destruct ((o :: options) !! k) as [c|] eqn:Hk; simpl.
      * by eapply list_elem_of_lookup_2.
      * by eapply list_elem_of_lookup_2.
    + by eapply list_elem_of_lookup_2.
  - by intros ->.
Qed.

Lemma st_number_input_within (value : V) typed :
  within vzero v100 value = true →
  ∃ v, st_number_input vzero v100 value typed = Returns v ∧
       within vzero v100 v = true ∧
       (typed = None → v = value).
Proof.
  intros Hv. unfold st_number_input. rewrite Hv. eexists. split; [done|].
  destruct typed as [v|]; [|done].
  destruct (within vzero v100 v) eqn:Hw; done.
Qed.

(** *** One row *)

Lemma filter_category_2_head self c2 :
  c2 ∈ cm_category_2 <$> df_categories self →
  ∃ row, head (filter (λ row, Some (cm_category_2 row) = Some c2) (df_categories self))
         = Some row.
Proof.
  intros (row & -> & Hrow)%list_elem_of_fmap.
  assert (row ∈ filter (λ r, Some (cm_category_2 r) = Some (cm_category_2 row))
                       (df_categories self)) as Hin
    by (by apply list_elem_of_filter).
  destruct (filter _ _) as [|row' l]; [by apply elem_of_nil in Hin|]. by exists row'.
Qed.

(** A row of the page is drawn whenever the weight it starts from is
    within the bounds; the entry it gives names a row of the catalog,
    with a weight within the bounds, and when the user touches nothing
    the names are those of [kept_names] and the weight is the previous
    one. *)
Lemma gather_row_run self ui state i previous :
  state !! i = Some previous →
  weight_ok previous →
  ∃ e, gather_row self ui state i = Returns e ∧
       in_catalog self e ∧
       weight_ok e ∧
       (w_category_2 ui i = None → w_category_3 ui i = None → w_weight ui i = None →
        e = (kept_names self previous, previous.2)).
Proof.
  intros Hi Hok. unfold gather_row, list_getitem. rewrite Hi. cbn [mbind Script_bind].
  destruct (st_number_input_within previous.2 (w_weight ui i) Hok)
    as (v & Hv & Hvok & Hvkeep).
  destruct (df_categories self) as [|first catalog] eqn:Hcat.
  { (* empty catalog *)
    csimpl.
    assert (preselected_index previous.1.1 [] = Returns 0%nat) as ->.
    { unfold preselected_index. destruct previous.1.1 as [c|]; [|done].
      rewrite decide_False; [done|]. apply not_elem_of_nil. }
    cbn [mbind Script_bind st_selectbox].
    assert (preselected_index previous.1.2 [] = Returns 0%nat) as ->.
    { unfold preselected_index. destruct previous.1.2 as [c|]; [|done].
      rewrite decide_False; [done|]. apply not_elem_of_nil. }
    cbn [mbind Script_bind st_selectbox]. rewrite Hv. cbn [mbind Script_bind mret Script_ret].
    eexists. split; [done|]. split; [|split; [done|]].
    - unfold in_catalog. simpl. done.
    - intros _ _ Hw. unfold kept_names. rewrite Hcat. by rewrite (Hvkeep Hw). }
  rewrite <-Hcat.
  set (options2 := unique (cm_category_2 <$> df_categories self)).
  assert (head options2 = Some (cm_category_2 first)) as Hhead2.
  { unfold options2. rewrite head_unique, Hcat. done. }
  destruct (preselected_index_option previous.1.1 options2 _ Hhead2) as (j2 & -> & Hj2).
  cbn [mbind Script_bind].
  destruct (st_selectbox_option options2 j2 (w_category_2 ui i) _ Hj2)
    as (c2 & -> & Hc2 & Hc2keep).
  cbn [mbind Script_bind].
  set (options3 := unique (cm_category_3
                     <$> filter (λ row, Some (cm_category_2 row) = Some c2)
                                (df_categories self))).
  assert (∃ row3, head (filter (λ row, Some (cm_category_2 row) = Some c2)
                               (df_categories self)) = Some row3) as [row3 Hrow3].
  { apply filter_category_2_head. by apply elem_of_unique. }
  assert (head options3 = Some (cm_category_3 row3)) as Hhead3.
  { unfold options3. rewrite head_unique.
    destruct (filter _ (df_categories self)) as [|r l]; [done|].
    simpl in Hrow3. by injection Hrow3 as ->. }
  destruct (preselected_index_option previous.1.2 options3 _ Hhead3) as (j3 & -> & Hj3).
  cbn [mbind Script_bind].
  destruct (st_selectbox_option options3 j3 (w_category_3 ui i) _ Hj3)
    as (c3 & -> & Hc3 & Hc3keep).
  cbn [mbind Script_bind]. rewrite Hv. cbn [mbind Script_bind mret Script_ret].
  eexists. split; [done|]. split; [|split; [done|]].
  - unfold in_catalog. simpl. unfold options3 in Hc3.
    apply elem_of_unique, list_elem_of_fmap in Hc3 as ([r2 r3] & -> & Hr).
    apply list_elem_of_filter in Hr as [Hr2 Hr]. simpl in Hr2.
    by injection Hr2 as <-.
  - intros Hw2 Hw3 Hw. pose proof (Hc2keep Hw2) as Ec2. pose proof (Hc3keep Hw3) as Ec3.
    rewrite (Hvkeep Hw). unfold kept_names. rewrite Hcat. rewrite <-Hcat.
    fold options2. rewrite <-Ec2. fold options3. rewrite Hhead3, Ec3.
    do 2 f_equal. destruct previous.1.2 as [c|]; [|done]. by destruct (decide _).
Qed.

(** *** The loop *)

Lemma gather_rows_run self ui state range (entries acc : list (Entry V)) :
  Forall2 (λ i e, gather_row self ui state i = Returns e) range entries →
  gather_rows self ui state range acc = Returns (acc ++ entries).
Proof.
  intros Hrows. revert acc.
  induction Hrows as [|i e range entries Hi _ IH]; intros acc; simpl.
  - by rewrite app_nil_r.
  - rewrite Hi. cbn [mbind Script_bind]. by rewrite IH, <-app_assoc.
Qed.

Lemma gather_rows_returns self ui state range (acc out : list (Entry V)) :
  gather_rows self ui state range acc = Returns out →
  ∃ entries, out = acc ++ entries ∧
             Forall2 (λ i e, gather_row self ui state i = Returns e) range entries.
Proof.
  revert acc. induction range as [|i range IH]; intros acc; simpl.
  - intros [= <-]. exists []. by rewrite app_nil_r.
  - destruct (gather_row self ui state i) as [e|err] eqn:Hi; [|done].
    cbn [mbind Script_bind]. intros Hrest.
    destruct (IH _ Hrest) as (entries & -> & Hrows).
    exists (e :: entries). split; [by rewrite <-app_assoc|]. by constructor.
Qed.

Lemma gather_rows_all self ui state n :
  length state = n →
  Forall weight_ok state →
  ∃ entries,
    Forall2 (λ i e, gather_row self ui state i = Returns e) (seq 0 n) entries ∧
    Forall (in_catalog self) entries ∧
    Forall weight_ok entries.
Proof.
  intros Hlen Hok.
  assert (∀ range, Forall (λ i, i < n)%nat range →
            ∃ entries,
              Forall2 (λ i e, gather_row self ui state i = Returns e) range entries ∧
              Forall (in_catalog self) entries ∧ Forall weight_ok entries) as Hrange.
  { induction 1 as [|i range Hi _ (entries & Hrows & Hcat & Hw)].
    - exists []. split; [constructor|]. split; constructor.
    - destruct (lookup_lt_is_Some_2 state i) as [previous Hprev]; [lia|].
      destruct (gather_row_run self ui state i previous Hprev) as (e & He & Hecat & Hew & _).
      { rewrite Forall_forall in Hok. apply Hok. by eapply list_elem_of_lookup_2. }
      exists (e :: entries). split; [by constructor|]. split; by constructor. }
  apply Hrange, Forall_forall. intros i Hi. apply elem_of_seq in Hi. lia.
Qed.

Lemma st_slider_range set : (1 ≤ st_slider 1 10 3 set ≤ 10)%nat.
Proof.
  unfold st_slider. destruct set as [n|]; [|lia]. destruct (decide _); lia.
Qed.

(** What one rendering of the page gives. *)
Lemma gather_user_inputs_run `{!CompareLaws V} self ui session :
  session_ok session →
  ∃ selections,
    gather_user_inputs self ui session
    = (Returns selections, mkSessionState (Some selections)) ∧
    Forall2 (λ i e, gather_row self ui
                      (adjust_session (st_slider 1 10 3 (w_slider ui)) session) i
                    = Returns e)
            (seq 0 (st_slider 1 10 3 (w_slider ui))) selections ∧
    Forall (in_catalog self) selections ∧
    Forall weight_ok selections.
Proof.
  intros Hok. unfold gather_user_inputs.
  destruct (gather_rows_all self ui
              (adjust_session (st_slider 1 10 3 (w_slider ui)) session)
              (st_slider 1 10 3 (w_slider ui)))
    as (entries & Hrows & Hcat & Hw).
  - apply length_adjust_session.
  - by apply adjust_session_ok.
  - exists entries. rewrite (gather_rows_run _ _ _ _ _ [] Hrows). done.
Qed.

(** X15.  Starting from a session whose weights are within the bounds
    of the widget, as every session this method has written is, the page
    is built without error: no [ValueError] from [index], no
    [IndexError] from the session list, no refusal from Streamlit.  The
    method returns as many selections as the slider says, between 1 and
    10, and leaves them in the session, with weights within the bounds
    again. *)
Theorem gather_user_inputs_returns `{!CompareLaws V} self ui session :
  session_ok session →
  ∃ selections,
    gather_user_inputs self ui session
    = (Returns selections, mkSessionState (Some selections)) ∧
    length selections = st_slider 1 10 3 (w_slider ui) ∧
    (1 ≤ length selections ≤ 10)%nat ∧
    session_ok (mkSessionState (Some selections)).
Proof.
  intros Hok.
  destruct (gather_user_inputs_run self ui session Hok) as (sels & Hrun & Hrows & _ & Hw).
  exists sels. split; [done|].
  assert (length sels = st_slider 1 10 3 (w_slider ui)) as Hlen.
  { apply Forall2_length in Hrows. by rewrite length_seq in Hrows. }
  split; [done|]. split; [|done]. rewrite Hlen. apply st_slider_range.
Qed.

(** X16.  Every selection the method returns names a row of the
    catalog, a [category_2] together with a [category_3] that the catalog
    has under it, whatever the session held and whatever the user chose;
    only with an empty catalog are the names [None]. *)
Theorem gather_user_inputs_in_catalog `{!CompareLaws V} self ui session :
  session_ok session →
  ∃ selections s',
    gather_user_inputs self ui session = (Returns selections, s') ∧
    Forall (λ e, match e.1.1, e.1.2 with
                 | Some c2, Some c3 => mkCommodity c2 c3 ∈ df_categories self
                 | None, None => df_categories self = []
                 | _, _ => False
                 end) selections.
Proof.
  intros Hok.
  destruct (gather_user_inputs_run self ui session Hok) as (sels & Hrun & _ & Hcat & _).
  by exists sels, (mkSessionState (Some sels)).
Qed.

Lemma kept_names_in_catalog self e :
  in_catalog self e → kept_names self e = e.1.
Proof.
  unfold in_catalog, kept_names. destruct e as [[[c2|] [c3|]] v]; simpl; try done.
  - intros Hin. destruct (df_categories self) as [|first catalog] eqn:Hcat;
      [by apply elem_of_nil in Hin|].
    rewrite <-Hcat in *.
    rewrite decide_True.
    2: { apply elem_of_unique, list_elem_of_fmap. by exists (mkCommodity c2 c3). }
    rewrite decide_True; [done|].
    apply elem_of_unique, list_elem_of_fmap. exists (mkCommodity c2 c3).
    split; [done|]. by apply list_elem_of_filter.
  - by intros ->.
Qed.

Lemma kept_names_blank self : (kept_names self (@blank_entry V _), @vzero V _)
                              = default_entry self.
Proof.
  unfold kept_names, default_entry. simpl.
  destruct (df_categories self) as [|first catalog] eqn:Hcat; [done|].
  rewrite filter_cons, decide_True by done. done.
Qed.

(** X17.  Rendering the page again without touching a selectbox or a
    weight keeps every row as the last rendering left it; rows added with
    the slider come up with the first row of the catalog and weight 0,
    and rows removed with the slider are dropped from the end. *)
Theorem rerender_keeps_rows `{!CompareLaws V} self ui ui' session selections s' :
  gather_user_inputs self ui session = (Returns selections, s') →
  untouched ui' →
  let n := st_slider 1 10 3 (w_slider ui') in
  let selections' :=
    take n (selections ++ replicate (n - length selections) (default_entry self)) in
  gather_user_inputs self ui' s' = (Returns selections', mkSessionState (Some selections')).
Proof.
  intros Hrun Hui n selections'. unfold gather_user_inputs in Hrun.
  destruct (gather_rows self ui _ _ []) as [sels|err] eqn:Hloop; [|done].
  injection Hrun as <- <-.
  apply gather_rows_returns in Hloop as (entries & -> & Hrows). simpl in *.
  assert (Forall (λ e, in_catalog self e ∧ weight_ok e) entries) as Hentries.
  { apply Forall_forall. intros e He. apply list_elem_of_lookup in He as [i He].
    destruct (Forall2_lookup_r _ _ _ _ _ Hrows He) as (k & Hk & Hrow).
    unfold gather_row, list_getitem in Hrow.
    destruct (adjust_session _ session !! k) as [previous|] eqn:Hprev; [|done].
    cbn [mbind Script_bind] in Hrow.
    destruct (within vzero v100 previous.2) eqn:Hw.
    - destruct (gather_row_run self ui _ k previous Hprev Hw) as (e' & He' & ? & ? & _).
      unfold gather_row, list_getitem in He'. rewrite Hprev in He'.
      cbn [mbind Script_bind] in He'. rewrite He' in Hrow. by injection Hrow as <-.
    - unfold st_number_input in Hrow. rewrite Hw in Hrow.
      destruct (preselected_index _ _); [|done]. cbn [mbind Script_bind] in Hrow.
      destruct (st_selectbox _ _ _); [|done]. cbn [mbind Script_bind] in Hrow.
      destruct (preselected_index _ _); [|done]. cbn [mbind Script_bind] in Hrow.
      destruct (st_selectbox _ _ _); done. }
  unfold gather_user_inputs. fold n.
  set (state := adjust_session n (mkSessionState (Some entries))).
  assert (state = take n (entries ++ replicate (n - length entries) blank_entry)) as Hstate
    by apply adjust_session_take.
  assert (Forall2 (λ i e, gather_row self ui' state i = Returns e) (seq 0 n) selections')
    as Hrows'.
  { apply Forall2_same_length_lookup_2.
    { unfold selections'. rewrite length_seq, length_take, length_app, length_replicate.
      lia. }
    intros i k e Hk He. apply lookup_seq in Hk as [-> Hi]. simpl.
    unfold selections' in He. rewrite lookup_take_lt in He by done.
    destruct (Hui i) as (Hw2 & Hw3 & Hw).
    destruct (decide (i < length entries)%nat) as [Hlt|Hge].
    - rewrite lookup_app_l in He by done.
      assert (in_catalog self e ∧ weight_ok e) as [Hcat Hok].
      { rewrite Forall_forall in Hentries. apply Hentries.
        by eapply list_elem_of_lookup_2. }
      destruct (gather_row_run self ui' state i e) as (e' & -> & _ & _ & Hkeep); [|done|].
      { rewrite Hstate, lookup_take_lt by done. by rewrite lookup_app_l. }
      rewrite (Hkeep Hw2 Hw3 Hw), kept_names_in_catalog by done. by destruct e as [[??]?].
    - rewrite lookup_app_r in He by lia. apply lookup_replicate in He as [-> _].
      destruct (gather_row_run self ui' state i blank_entry) as (e' & -> & _ & _ & Hkeep).
      { rewrite Hstate, lookup_take_lt by done. rewrite lookup_app_r by lia.
        apply lookup_replicate. split; [done|]. lia. }
      { apply blank_entry_ok. }
      rewrite (Hkeep Hw2 Hw3 Hw). simpl. by rewrite kept_names_blank. }
  by rewrite (gather_rows_run _ _ _ _ _ [] Hrows').
Qed.

End more_gather_user_inputs.

(** ** [process_data] and its inputs *)

Section more_inputs.
Context {V : Type} `{HA : Arith V}.
Implicit Types (w : World V) (selections : list (Selection V))
  (svs : list (Survivor V)).

Lemma survivors_perm (db : Database V) selections selections' :
  selections ≡ₚ selections' → survivors db selections ≡ₚ survivors db selections'.
Proof.
  unfold survivors. induction 1 as [|s l l' _ IH|s1 s2 l|l1 l2 l3 _ IH1 _ IH2]; csimpl.
  - done.
  - destruct (survivor db s); by rewrite IH.
  - destruct (survivor db s1), (survivor db s2); try done. apply perm_swap.
  - by etrans.
Qed.

Lemma weighted_rows_perm svs svs' :
  svs ≡ₚ svs' → mjoin (weighted_series <$> svs) ≡ₚ mjoin (weighted_series <$> svs').
Proof.
  induction 1 as [|sv l l' _ IH|sv1 sv2 l|l1 l2 l3 _ IH1 _ IH2]; csimpl.
  - done.
  - by rewrite IH.
  - rewrite !app_assoc. f_equiv. apply Permutation_app_comm.
  - by etrans.
Qed.

(** X19.  The composite does not depend on the order of the
    selections: on a list and on any permutation of it, [process_data]
    returns composites with the same dates, and the same frame when the
    arithmetic is exact. *)
Theorem composite_selection_order selections selections' w :
  selections ≡ₚ selections' →
  reachable selections w →
  ∃ out out' w1 w1' df df',
    process_data selections w = (Ok out, w1) ∧
    process_data selections' w = (Ok out', w1') ∧
    heap w1 !! aggregated_index out = Some df ∧
    heap w1' !! aggregated_index out' = Some df' ∧
    observation_date <$> frame_rows df = observation_date <$> frame_rows df' ∧
    (ExactArith V → df = df').
Proof.
  intros Hperm Hw.
  pose proof (survivors_perm (database w) _ _ Hperm) as Hsvs.
  assert (reachable selections' w) as Hw'.
  { unfold reachable, calls in *.
    by rewrite <-(Permutation_length Hperm), <-(Permutation_length Hsvs). }
  do 6 eexists. split; [by apply process_data_ok|]. split; [by apply process_data_ok|].
  split; [apply final_world_aggregated|]. split; [apply final_world_aggregated|].
  pose proof (weighted_rows_perm _ _ Hsvs) as Hrows.
  destruct (survivors (database w) selections) as [|sv svs] eqn:E;
    destruct (survivors (database w) selections') as [|sv' svs'] eqn:E'.
  - done.
  - by apply Permutation_nil_l in Hsvs.
  - by apply Permutation_nil_r in Hsvs.
  - cbn [composite_frame frame_rows]. unfold composite_rows. split.
    + rewrite !groupby_sum_dates. apply group_keys_perm. by rewrite Hrows.
    + intros Hexact. f_equal. by apply groupby_sum_perm.
Qed.

End more_inputs.

(** ** The further properties on the scenario *)

Lemma fetch_timeseries_data_contract_witness :
  online (database Scenario.start) (connects Scenario.start) = true ∧
  (∃ w', fetch_timeseries_data [] Scenario.start = (Raise IndexError, w') ∧
         heap w' = heap Scenario.start ∧ queries w' = queries Scenario.start ∧
         connects w' = S (connects Scenario.start)) ∧
  ∃ r w' rows,
    fetch_timeseries_data ["WPU1017"; "WPU101707"] Scenario.start = (Ok r, w') ∧
    heap Scenario.start !! r = None ∧
    heap w' !! r = Some (Frame rows) ∧
    (∀ r' df, heap Scenario.start !! r' = Some df → heap w' !! r' = Some df) ∧
    (∀ d v, mkRow d v ∈ rows ↔
            mkAdjustedObservation "WPU1017" d v
              ∈ ppi_adjusted_2020 (database Scenario.start)).
Proof.
  split; [reflexivity|].
  destruct (fetch_timeseries_data_contract Scenario.start eq_refl) as [Hnone Hfirst].
  split; [exact Hnone|]. exact (Hfirst "WPU1017" ["WPU101707"]).
Defined.

Lemma fetch_all_categories_sorted_witness :
  online (database Scenario.start) (connects Scenario.start) = true ∧
  ∃ df w',
    fetch_all_categories Page.ppi_all_commodities Scenario.start = (Ok df, w') ∧
    StreamlitApp_init Page.ppi_all_commodities Scenario.start
    = (Ok (mkStreamlitApp df), w') ∧
    df ≡ₚ Page.ppi_all_commodities ∧
    Sorted commodity_le df ∧
    heap w' = heap Scenario.start ∧ queries w' = queries Scenario.start ∧
    connects w' = S (connects Scenario.start).
Proof.
  split; [reflexivity|].
  exact (fetch_all_categories_sorted Page.ppi_all_commodities Scenario.start eq_refl).
Defined.

Lemma generate_plot_traces_witness :
  heap Scenario.processed !! 8%nat
  = Some (Frame (rows_at Scenario.processed 8%nat)) ∧
  Forall (λ r, ∃ rows', heap Scenario.processed !! r = Some (Frame rows')) [2; 5]%nat ∧
  Forall (λ r : Row Qc, 1683 ≤ year (observation_date r) ≤ 9999)
         (rows_at Scenario.processed 8%nat) ∧
  ∃ fig w',
    generate_plot 8%nat [2; 5]%nat ["Steel"; "Oil"; "Gas"] Scenario.processed
    = (Ok fig, w') ∧
    name <$> data fig = "Composite Index" :: take 2 ["Steel"; "Oil"; "Gas"] ∧
    length (data fig) = 3%nat ∧
    line <$> data fig
    = mkLine "#093D44" 5 :: replicate 2 (mkLine "#71869d" 1) ∧
    Forall (λ t, mode t = "lines" ∧ length (x t) = length (y t)) (data fig) ∧
    title fig = Some "Composite Index and Individual Indices - Last 5 Years".
Proof.
  assert (heap Scenario.processed !! 8%nat
          = Some (Frame (rows_at Scenario.processed 8%nat))) as Hagg by (by vm_compute).
  assert (Forall (λ r, ∃ rows', heap Scenario.processed !! r = Some (Frame rows'))
                 [2; 5]%nat) as Hind.
  { repeat (constructor; [by eexists; vm_compute|]). constructor. }
  assert (Forall (λ r : Row Qc, 1683 ≤ year (observation_date r) ≤ 9999)
                 (rows_at Scenario.processed 8%nat)) as Hyears by compute_done.
  split; [exact Hagg|]. split; [exact Hind|]. split; [exact Hyears|].
  exact (generate_plot_traces 8%nat [2; 5]%nat ["Steel"; "Oil"; "Gas"] _
           Scenario.processed Hagg Hind Hyears).
Defined.

Lemma latest_observation_plotted_witness :
  heap Plots.decade !! 0%nat = Some (Frame (rows_at Plots.decade 0%nat)) ∧
  Forall (λ r, ∃ rows', heap Plots.decade !! r = Some (Frame rows')) [1%nat] ∧
  Forall (λ r : Row Qc, 1683 ≤ year (observation_date r) ≤ 9999)
         (rows_at Plots.decade 0%nat) ∧
  rows_at Plots.decade 0%nat ≠ [] ∧
  ∃ fig w' t last,
    generate_plot 0%nat [1%nat] ["Steel"] Plots.decade = (Ok fig, w') ∧
    data fig !! 0%nat = Some t ∧
    last ∈ observation_date <$> rows_at Plots.decade 0%nat ∧
    (∀ d, d ∈ observation_date <$> rows_at Plots.decade 0%nat → ts_le d last) ∧
    last ∈ x t ∧
    ∀ d, d ∈ x t → year last - 5 ≤ year d ∧ ts_le d last.
Proof.
  assert (Forall (λ r, ∃ rows', heap Plots.decade !! r = Some (Frame rows')) [1%nat])
    as Hind by (repeat (constructor; [by eexists|]); constructor).
  assert (Forall (λ r : Row Qc, 1683 ≤ year (observation_date r) ≤ 9999)
                 (rows_at Plots.decade 0%nat)) as Hyears by compute_done.
  assert (rows_at Plots.decade 0%nat ≠ []) as Hne by (by vm_compute).
  split; [reflexivity|]. split; [exact Hind|]. split; [exact Hyears|].
  split; [exact Hne|].
  exact (latest_observation_plotted 0%nat [1%nat] ["Steel"] _
           Plots.decade eq_refl Hind Hyears Hne).
Defined.

Lemma empty_composite_plots_nothing_witness :
  heap Plots.no_rows !! 0%nat = Some (Frame []) ∧
  Forall (λ r, ∃ rows', heap Plots.no_rows !! r = Some (Frame rows')) [1%nat] ∧
  ∃ fig w',
    generate_plot 0%nat [1%nat] ["Steel"] Plots.no_rows = (Ok fig, w') ∧
    length (data fig) = 2%nat ∧
    Forall (λ t, x t = [] ∧ y t = []) (data fig).
Proof.
  assert (Forall (λ r, ∃ rows', heap Plots.no_rows !! r = Some (Frame rows')) [1%nat])
    as Hind.
  { repeat (constructor; [by eexists; vm_compute|]). constructor. }
  split; [reflexivity|]. split; [exact Hind|].
  exact (empty_composite_plots_nothing 0%nat [1%nat] ["Steel"] Plots.no_rows eq_refl Hind).
Defined.

Lemma generate_plot_needs_columns_witness :
  heap Plots.no_columns !! 0%nat
  = Some (Frame [mkRow Scenario.jan (Scenario.q 14)]) ∧
  Forall (λ r, is_Some (heap Plots.no_columns !! r)) [1; 2]%nat ∧
  Forall (λ r : Row Qc, 1683 ≤ year (observation_date r) ≤ 9999)
         [mkRow Scenario.jan (Scenario.q 14)] ∧
  ((∃ fig w', generate_plot 0%nat [1; 2]%nat ["Steel"; "Oil"] Plots.no_columns
              = (Ok fig, w')) ↔
   Forall (λ p, ∃ rows', heap Plots.no_columns !! p.1 = Some (Frame rows'))
          (zip [1; 2]%nat ["Steel"; "Oil"])) ∧
  (∀ e w', generate_plot 0%nat [1; 2]%nat ["Steel"; "Oil"] Plots.no_columns
           = (Raise e, w') →
           e = KeyError "observation_date").
Proof.
  assert (Forall (λ r, is_Some (heap Plots.no_columns !! r)) [1; 2]%nat) as Hind.
  { repeat (constructor; [by eexists; vm_compute|]). constructor. }
  assert (Forall (λ r : Row Qc, 1683 ≤ year (observation_date r) ≤ 9999)
                 [mkRow Scenario.jan (Scenario.q 14)]) as Hyears by compute_done.
  split; [reflexivity|]. split; [exact Hind|]. split; [exact Hyears|].
  exact (generate_plot_needs_columns 0%nat [1; 2]%nat ["Steel"; "Oil"] _
           Plots.no_columns eq_refl Hind Hyears).
Defined.

Lemma generate_plot_before_year_six_witness :
  heap Plots.year_four !! 0%nat
  = Some (Frame [mkRow (mkTimestamp 4 1 1) (Scenario.q 14)]) ∧
  mkTimestamp 4 1 1 ∈ observation_date <$> [mkRow (mkTimestamp 4 1 1) (Scenario.q 14)] ∧
  (∀ d, d ∈ observation_date <$> [mkRow (mkTimestamp 4 1 1) (Scenario.q 14)] →
        ts_le d (mkTimestamp 4 1 1)) ∧
  year (mkTimestamp 4 1 1) < 6 ∧
  generate_plot 0%nat [1%nat] ["Steel"] Plots.year_four
  = (Raise ValueError, Plots.year_four).
Proof.
  assert (mkTimestamp 4 1 1
            ∈ observation_date <$> [mkRow (mkTimestamp 4 1 1) (Scenario.q 14)]) as Hlast
    by compute_done.
  assert (∀ d, d ∈ observation_date <$> [mkRow (mkTimestamp 4 1 1) (Scenario.q 14)] →
               ts_le d (mkTimestamp 4 1 1)) as Hmax
    by (apply Forall_forall; compute_done).
  assert (year (mkTimestamp 4 1 1) < 6) as Hyear by (simpl; lia).
  split; [reflexivity|]. split; [exact Hlast|]. split; [exact Hmax|].
  split; [exact Hyear|].
  exact (generate_plot_before_year_six 0%nat [1%nat] ["Steel"] _ _ Plots.year_four
           eq_refl Hlast Hmax Hyear).
Defined.

Lemma plot_after_process_data_witness :
  reachable Scenario.selections Scenario.start ∧
  Forall (λ o, 1683 ≤ year (ao_observation_date o) ≤ 9999)
         (ppi_adjusted_2020 (database Scenario.start)) ∧
  survivors (database Scenario.start) Scenario.selections ≠ [] ∧
  ∃ out w1 fig w2,
    process_data Scenario.selections Scenario.start = (Ok out, w1) ∧
    generate_plot (aggregated_index out) (individual_indexes out) (index_categories out) w1
    = (Ok fig, w2) ∧
    name <$> data fig
    = "Composite Index"
      :: (category_3 <$> filter (λ s, resolve (database Scenario.start) s ≠ [])
                                Scenario.selections) ∧
    (∀ r df, heap w1 !! r = Some df → heap w2 !! r = Some df).
Proof.
  assert (Forall (λ o : AdjustedObservation Qc,
                    1683 ≤ year (ao_observation_date o) ≤ 9999)
                 (ppi_adjusted_2020 (database Scenario.start))) as Hyears by compute_done.
  assert (survivors (database Scenario.start) Scenario.selections ≠ []) as Hne
    by (by vm_compute).
  split; [apply ScenarioFacts.start_reachable|]. split; [exact Hyears|].
  split; [exact Hne|].
  exact (plot_after_process_data Scenario.selections Scenario.start
           (ScenarioFacts.start_reachable _) Hyears Hne).
Defined.

Lemma traces_are_tails_witness :
  reachable Scenario.staggered_selections
            (mkWorld Scenario.staggered_warehouse [] 0 []) ∧
  Forall (λ o, 1683 ≤ year (ao_observation_date o) ≤ 9999)
         (ppi_adjusted_2020 Scenario.staggered_warehouse) ∧
  survivors Scenario.staggered_warehouse Scenario.staggered_selections ≠ [] ∧
  ∃ out w1 fig w2,
    process_data Scenario.staggered_selections
                 (mkWorld Scenario.staggered_warehouse [] 0 []) = (Ok out, w1) ∧
    generate_plot (aggregated_index out) (individual_indexes out) (index_categories out) w1
    = (Ok fig, w2) ∧
    Forall2 (λ t r, ∃ rows,
               heap w1 !! r = Some (Frame rows) ∧
               x t `suffix_of` (observation_date <$> rows) ∧
               y t `suffix_of` (adjusted_index_value <$> rows) ∧
               Sorted ts_le (x t))
            (data fig) (aggregated_index out :: individual_indexes out).
Proof.
  assert (reachable Scenario.staggered_selections
            (mkWorld Scenario.staggered_warehouse [] 0 [])) as Hw by (by intros n _).
  assert (Forall (λ o : AdjustedObservation Qc,
                    1683 ≤ year (ao_observation_date o) ≤ 9999)
                 (ppi_adjusted_2020 Scenario.staggered_warehouse)) as Hyears
    by compute_done.
  assert (survivors Scenario.staggered_warehouse Scenario.staggered_selections ≠ [])
    as Hne by (by vm_compute).
  split; [exact Hw|]. split; [exact Hyears|]. split; [exact Hne|].
  exact (traces_are_tails Scenario.staggered_selections
           (mkWorld Scenario.staggered_warehouse [] 0 []) Hw Hyears Hne).
Defined.

Lemma gather_user_inputs_returns_witness :
  CompareLaws Qc ∧
  session_ok Page.first_visit ∧
  ∃ selections,
    gather_user_inputs Page.app Page.picks Page.first_visit
    = (Returns selections, mkSessionState (Some selections)) ∧
    length selections = st_slider 1 10 3 (w_slider Page.picks) ∧
    (1 ≤ length selections ≤ 10)%nat ∧
    session_ok (mkSessionState (Some selections)).
Proof.
  split; [exact Qc_CompareLaws|]. split; [exact I|].
  exact (gather_user_inputs_returns Page.app Page.picks Page.first_visit I).
Defined.

Lemma gather_user_inputs_in_catalog_witness :
  CompareLaws Qc ∧
  session_ok Page.first_visit ∧
  ∃ selections s',
    gather_user_inputs Page.app Page.picks Page.first_visit = (Returns selections, s') ∧
    Forall (λ e, match e.1.1, e.1.2 with
                 | Some c2, Some c3 => mkCommodity c2 c3 ∈ df_categories Page.app
                 | None, None => df_categories Page.app = []
                 | _, _ => False
                 end) selections.
Proof.
  split; [exact Qc_CompareLaws|]. split; [exact I|].
  exact (gather_user_inputs_in_catalog Page.app Page.picks Page.first_visit I).
Defined.

Lemma rerender_keeps_rows_witness :
  let selections :=
    [(Some "Metals", Some "Steel", Scenario.q 60);
     (Some "Energy", Some "Oil", Scenario.q 40)] in
  let s' := mkSessionState (Some selections) in
  CompareLaws Qc ∧
  gather_user_inputs Page.app Page.picks Page.first_visit = (Returns selections, s') ∧
  untouched (Page.slider_only 3) ∧
  gather_user_inputs Page.app (Page.slider_only 3) s'
  = (Returns (selections ++ [(Some "Energy", Some "Gas", Scenario.q 0)]),
     mkSessionState (Some (selections ++ [(Some "Energy", Some "Gas", Scenario.q 0)]))).
Proof.
  intros selections s'.
  assert (gather_user_inputs Page.app Page.picks Page.first_visit
          = (Returns selections, s')) as Hrun by (by vm_compute).
  assert (untouched (Page.slider_only 3)) as Hui by (by intros i).
  split; [exact Qc_CompareLaws|]. split; [exact Hrun|]. split; [exact Hui|].
  exact (rerender_keeps_rows Page.app Page.picks (Page.slider_only 3) Page.first_visit
           selections s' Hrun Hui).
Defined.

Lemma composite_selection_order_witness :
  [Scenario.steel; Scenario.oil] ≡ₚ [Scenario.oil; Scenario.steel] ∧
  reachable [Scenario.steel; Scenario.oil] Scenario.start ∧
  ∃ out out' w1 w1' df,
    process_data [Scenario.steel; Scenario.oil] Scenario.start = (Ok out, w1) ∧
    process_data [Scenario.oil; Scenario.steel] Scenario.start = (Ok out', w1') ∧
    heap w1 !! aggregated_index out = Some df ∧
    heap w1' !! aggregated_index out' = Some df.
Proof.
  assert ([Scenario.steel; Scenario.oil] ≡ₚ [Scenario.oil; Scenario.steel]) as Hperm
    by apply perm_swap.
  split; [exact Hperm|]. split; [apply ScenarioFacts.start_reachable|].
  destruct (composite_selection_order [Scenario.steel; Scenario.oil]
              [Scenario.oil; Scenario.steel] Scenario.start Hperm
              (ScenarioFacts.start_reachable _))
    as (out & out' & w1 & w1' & df & df' & Hrun & Hrun' & Hdf & Hdf' & _ & Hsame).
  rewrite <-(Hsame Qc_ExactArith) in Hdf'. by exists out, out', w1, w1', df.
Defined.
